(** * Web crawler and page analyzer (backend/main.go): model and properties

    The backend fetches a page, walks the parsed document once to collect
    heading counts, link counts, the title and the login-form flag, probes
    every anchor target, and stores the outcome under a job row whose
    [status] column drives the worker loop.  The development follows the
    source function by function: Go strings are [string]s, the [*html.Node]
    tree is a rose tree, the [analysis] object mutated by the closures is
    threaded explicitly, the network and the database are explicit state. *)

From stdpp Require Import gmap strings list fin_maps.
From Stdlib Require Import ZArith Lia.

Set Warnings "-register-all".

Local Open Scope string_scope.
Local Open Scope Z_scope.
Local Open Scope list_scope.

(** ** Go strings: the [strings] functions the analyzer calls *)

Module GoStrings.

(** [strings.HasPrefix(s, prefix)]: byte-wise, case-sensitive. *)
Fixpoint HasPrefix (s prefix : string) : bool :=
  match prefix, s with
  | EmptyString, _ => true
  | String _ _, EmptyString => false
  | String p prefix', String c s' =>
      if Ascii.eqb c p then HasPrefix s' prefix' else false
  end.

(** [strings.Contains(s, substr)]. *)
Fixpoint Contains (s substr : string) : bool :=
  HasPrefix s substr ||
  match s with
  | EmptyString => false
  | String _ s' => Contains s' substr
  end.

Definition lower_byte (c : Ascii.ascii) : Ascii.ascii :=
  let n := Ascii.nat_of_ascii c in
  if ((65 <=? n) && (n <=? 90))%nat then Ascii.ascii_of_nat (n + 32) else c.

(** [strings.ToLower(s)] on the ASCII range.  Bytes of 128 and above are
    kept: the analyzer only searches the lowered text for ASCII patterns
    made of letters that no non-ASCII rune lowers to, so what Go does to
    those bytes cannot create or destroy a match. *)
Fixpoint ToLower (s : string) : string :=
  match s with
  | EmptyString => EmptyString
  | String c s' => String (lower_byte c) (ToLower s')
  end.

End GoStrings.
Export GoStrings.

(** ** Go [int]: 64-bit two's complement *)

Definition wrap_int (z : Z) : Z := (z + 2 ^ 63) mod 2 ^ 64 - 2 ^ 63.

(** [x++] on an [int]. *)
Definition incr (x : Z) : Z := wrap_int (x + 1).

(** [k] increments of an [int]. *)
Definition incr_times (k : nat) (x : Z) : Z := Nat.iter k incr x.

(** [len(s)] of a slice: an [int] by construction. *)
Definition len {A} (s : list A) : Z := Z.of_nat (length s).

(** ** golang.org/x/net/html: the node tree *)

Inductive NodeType :=
| ErrorNode | TextNode | DocumentNode | ElementNode
| CommentNode | DoctypeNode | RawNode.

Global Instance NodeType_eq_dec : EqDecision NodeType.
Proof. solve_decision. Defined.

Record Attribute := mkAttr { Namespace : string; Key : string; Val : string }.

(** A node with its type, its [Data] (tag name, text, comment or doctype
    name), its attributes in source order and its children from
    [FirstChild] along [NextSibling]. *)
Inductive Node :=
| MkNode (ty : NodeType) (data : string) (attrs : list Attribute)
         (kids : list Node).

Definition Type_ (n : Node) : NodeType := let 'MkNode ty _ _ _ := n in ty.
Definition Data (n : Node) : string := let 'MkNode _ d _ _ := n in d.
Definition Attr (n : Node) : list Attribute := let 'MkNode _ _ a _ := n in a.
Definition children (n : Node) : list Node := let 'MkNode _ _ _ k := n in k.

(** [n.FirstChild], [nil] as [None]. *)
Definition FirstChild (n : Node) : option Node := head (children n).

(** Induction over the tree with the hypothesis on every child. *)
Section NodeInduction.
Variable P : Node -> Prop.
Hypothesis step : forall ty data attrs kids,
    Forall P kids -> P (MkNode ty data attrs kids).

Fixpoint Node_ind' (n : Node) : P n :=
  match n with
  | MkNode ty data attrs kids =>
      step ty data attrs kids
        ((fix all (l : list Node) : Forall P l :=
            match l with
            | [] => @List.Forall_nil _ P
            | c :: l' => @List.Forall_cons _ P c l' (Node_ind' c) (all l')
            end) kids)
  end.
End NodeInduction.

(** ** The result record *)

Record Analysis := mkAnalysis {
  ID : Z;
  URL : string;
  HTMLVersion : string;
  Title : string;
  H1Count : Z;
  H2Count : Z;
  H3Count : Z;
  H4Count : Z;
  H5Count : Z;
  H6Count : Z;
  InternalLinks : Z;
  ExternalLinks : Z;
  InaccessibleLinks : Z;
  BrokenLinks : list string;
  HasLoginForm : bool;
  Status : string
}.

(** [&Analysis{URL: urlStr}]: every other field at its zero value. *)
Definition new_Analysis (urlStr : string) : Analysis :=
  mkAnalysis 0 urlStr EmptyString EmptyString 0 0 0 0 0 0 0 0 0 [] false
    EmptyString.

Definition set_HTMLVersion (v : string) (a : Analysis) : Analysis :=
  mkAnalysis (ID a) (URL a) v (Title a) (H1Count a) (H2Count a) (H3Count a)
    (H4Count a) (H5Count a) (H6Count a) (InternalLinks a) (ExternalLinks a)
    (InaccessibleLinks a) (BrokenLinks a) (HasLoginForm a) (Status a).

Definition set_Title (v : string) (a : Analysis) : Analysis :=
  mkAnalysis (ID a) (URL a) (HTMLVersion a) v (H1Count a) (H2Count a)
    (H3Count a) (H4Count a) (H5Count a) (H6Count a) (InternalLinks a)
    (ExternalLinks a) (InaccessibleLinks a) (BrokenLinks a) (HasLoginForm a)
    (Status a).

(** [analysis.H<k>Count++]; a level outside 1..6 touches nothing. *)
Definition incr_HCount (k : nat) (a : Analysis) : Analysis :=
  let b (j : nat) (x : Z) := if (j =? k)%nat then incr x else x in
  mkAnalysis (ID a) (URL a) (HTMLVersion a) (Title a) (b 1%nat (H1Count a))
    (b 2%nat (H2Count a)) (b 3%nat (H3Count a)) (b 4%nat (H4Count a))
    (b 5%nat (H5Count a)) (b 6%nat (H6Count a)) (InternalLinks a)
    (ExternalLinks a) (InaccessibleLinks a) (BrokenLinks a) (HasLoginForm a)
    (Status a).

Definition incr_InternalLinks (a : Analysis) : Analysis :=
  mkAnalysis (ID a) (URL a) (HTMLVersion a) (Title a) (H1Count a) (H2Count a)
    (H3Count a) (H4Count a) (H5Count a) (H6Count a) (incr (InternalLinks a))
    (ExternalLinks a) (InaccessibleLinks a) (BrokenLinks a) (HasLoginForm a)
    (Status a).

Definition incr_ExternalLinks (a : Analysis) : Analysis :=
  mkAnalysis (ID a) (URL a) (HTMLVersion a) (Title a) (H1Count a) (H2Count a)
    (H3Count a) (H4Count a) (H5Count a) (H6Count a) (InternalLinks a)
    (incr (ExternalLinks a)) (InaccessibleLinks a) (BrokenLinks a)
    (HasLoginForm a) (Status a).

Definition set_links (broken : list string) (a : Analysis) : Analysis :=
  mkAnalysis (ID a) (URL a) (HTMLVersion a) (Title a) (H1Count a) (H2Count a)
    (H3Count a) (H4Count a) (H5Count a) (H6Count a) (InternalLinks a)
    (ExternalLinks a) (len broken) broken (HasLoginForm a) (Status a).

Definition set_HasLoginForm (v : bool) (a : Analysis) : Analysis :=
  mkAnalysis (ID a) (URL a) (HTMLVersion a) (Title a) (H1Count a) (H2Count a)
    (H3Count a) (H4Count a) (H5Count a) (H6Count a) (InternalLinks a)
    (ExternalLinks a) (InaccessibleLinks a) (BrokenLinks a) v (Status a).

(** ** analyzeURL: the document walk

    The closure [f] mutates the one [analysis] object; here the object is
    passed in and handed back. *)

Module Walker.

(** [case "a"]: the loop over [n.Attr]. *)
Fixpoint anchor_loop (attrs : list Attribute) (a : Analysis) : Analysis :=
  match attrs with
  | [] => a
  | attr :: rest =>
      if String.eqb (Key attr) "href" then
        if HasPrefix (Val attr) "http"
        then anchor_loop rest (incr_ExternalLinks a)
        else anchor_loop rest (incr_InternalLinks a)
      else anchor_loop rest a
  end.

(** [case "form"], first loop: leaves by [break] on the first hit. *)
Fixpoint action_loop (attrs : list Attribute) (a : Analysis) : Analysis :=
  match attrs with
  | [] => a
  | attr :: rest =>
      if String.eqb (Key attr) "action" &&
         (Contains (Val attr) "login" || Contains (Val attr) "signin")
      then set_HasLoginForm true a
      else action_loop rest a
  end.

(** The attribute loop of [checkForPassword]: [true] when it hits
    [type="password"] and the closure returns. *)
Fixpoint password_attr (attrs : list Attribute) : bool :=
  match attrs with
  | [] => false
  | attr :: rest =>
      if String.eqb (Key attr) "type" && String.eqb (Val attr) "password"
      then true
      else password_attr rest
  end.

Fixpoint checkForPassword (child : Node) (a : Analysis) : Analysis :=
  match child with
  | MkNode ty data attrs kids =>
      if bool_decide (ty = ElementNode) && String.eqb data "input"
         && password_attr attrs
      then set_HasLoginForm true a
      else fold_left (fun acc c => checkForPassword c acc) kids a
  end.

(** The [switch n.Data] of an element node. *)
Definition visit_element (n : Node) (a : Analysis) : Analysis :=
  let d := Data n in
  if String.eqb d "title" then
    match FirstChild n with
    | Some c => set_Title (Data c) a
    | None => a
    end
  else if String.eqb d "h1" then incr_HCount 1 a
  else if String.eqb d "h2" then incr_HCount 2 a
  else if String.eqb d "h3" then incr_HCount 3 a
  else if String.eqb d "h4" then incr_HCount 4 a
  else if String.eqb d "h5" then incr_HCount 5 a
  else if String.eqb d "h6" then incr_HCount 6 a
  else if String.eqb d "a" then anchor_loop (Attr n) a
  else if String.eqb d "form" then
    let a1 := action_loop (Attr n) a in
    if negb (HasLoginForm a1) then checkForPassword n a1 else a1
  else a.

Definition visit (n : Node) (a : Analysis) : Analysis :=
  if bool_decide (Type_ n = ElementNode) then visit_element n a else a.

Fixpoint f (n : Node) (a : Analysis) : Analysis :=
  match n with
  | MkNode ty data attrs kids =>
      fold_left (fun acc c => f c acc) kids
        (visit (MkNode ty data attrs kids) a)
  end.

End Walker.

(** ** What the properties count: nodes in traversal order *)

Module DocSpec.

(** Every node of the tree, depth first, a node before its children. *)
Fixpoint preorder (n : Node) : list Node :=
  match n with
  | MkNode ty data attrs kids =>
      MkNode ty data attrs kids :: flat_map preorder kids
  end.

(** What each node contributes, gathered in traversal order. *)
Definition collect {A} (g : Node -> list A) (doc : Node) : list A :=
  flat_map g (preorder doc).

Definition is_element (tag : string) (n : Node) : bool :=
  bool_decide (Type_ n = ElementNode) && String.eqb (Data n) tag.

Definition is_href (attr : Attribute) : bool := String.eqb (Key attr) "href".

(** The values of the [href] attributes of one node, in attribute order. *)
Definition href_values (n : Node) : list string :=
  map Val (List.filter is_href (Attr n)).

Definition own_hrefs (n : Node) : list string :=
  if is_element "a" n then href_values n else [].

(** Every [href] value carried by an anchor, once per attribute. *)
Definition anchor_hrefs (doc : Node) : list string := collect own_hrefs doc.

(** The anchors that carry at least one [href] attribute. *)
Definition anchors_with_href (doc : Node) : list Node :=
  List.filter (fun n => is_element "a" n && existsb is_href (Attr n))
    (preorder doc).

(** "Starts with the literal prefix http". *)
Definition starts_with_http (v : string) : Prop :=
  exists rest, v = "http" +:+ rest.

Definition external_href (v : string) : bool := HasPrefix v "http".

(** What a [title] element assigns: the [Data] of its first child. *)
Definition own_title (n : Node) : list string :=
  if is_element "title" n then
    match FirstChild n with Some c => [Data c] | None => [] end
  else [].

Definition title_texts (doc : Node) : list string := collect own_title doc.

Definition action_matches (n : Node) : bool :=
  existsb (fun attr => String.eqb (Key attr) "action" &&
                       (Contains (Val attr) "login" ||
                        Contains (Val attr) "signin")) (Attr n).

Definition is_password_input (n : Node) : bool :=
  is_element "input" n &&
  existsb (fun attr => String.eqb (Key attr) "type" &&
                       String.eqb (Val attr) "password") (Attr n).

(** A password input at [n] or below it. *)
Definition password_below (n : Node) : bool :=
  existsb is_password_input (preorder n).

(** A [form] that sets the flag: by its [action] or by a password input. *)
Definition login_form (n : Node) : bool :=
  is_element "form" n && (action_matches n || password_below n).

(** Some [form] element whose [action] attribute names a login. *)
Definition form_action_login (doc : Node) : bool :=
  existsb (fun n => is_element "form" n && action_matches n) (preorder doc).

(** Some [form] element with a password input in its subtree. *)
Definition form_password_login (doc : Node) : bool :=
  existsb (fun n => is_element "form" n && password_below n) (preorder doc).

(** The values of the doctype nodes in traversal order, nothing below a
    doctype node being visited. *)
Fixpoint doctypes (n : Node) : list string :=
  match n with
  | MkNode ty data attrs kids =>
      if bool_decide (ty = DoctypeNode) then [data]
      else flat_map doctypes kids
  end.

End DocSpec.
Export DocSpec.

(** ** getHTMLVersion *)

Module HtmlVersion.

(** The closure [f] of [getHTMLVersion]: a doctype node assigns
    [version] and returns from that call; the callers' loops over the
    remaining siblings go on. *)
Fixpoint f (n : Node) (version : string) : string :=
  match n with
  | MkNode ty data attrs kids =>
      if bool_decide (ty = DoctypeNode) then data
      else fold_left (fun v c => f c v) kids version
  end.

Definition classify (version : string) : string :=
  if Contains (ToLower version) "html 5" || String.eqb version "html"
  then "HTML5"
  else if Contains (ToLower version) "xhtml 1.1" then "XHTML 1.1"
  else if Contains (ToLower version) "xhtml 1.0" then "XHTML 1.0"
  else if Contains (ToLower version) "html 4.01" then "HTML 4.01"
  else if Contains (ToLower version) "html 4.0" then "HTML 4.0"
  else "HTML5".

Definition getHTMLVersion (doc : Node) : string := classify (f doc EmptyString).

End HtmlVersion.

(** ** The libraries around the analyzer

    [net/http], [net/url] and [html.Parse] are not part of the program;
    the analyzer is written against them.  The network is a state that
    every request reads and may change. *)

Record Response := mkResponse { StatusCode : Z; Body : string }.

Class Platform := {
  World : Type;
  (** [(&http.Client{Timeout: t}).Get(url)]: [None] for a non-nil [err]. *)
  http_Get : Z -> string -> World -> option Response * World;
  (** [html.Parse(resp.Body)]: [None] for a non-nil [err]. *)
  html_Parse : string -> option Node;
  ParsedURL : Type;
  (** [url.Parse(s)]: [None] for a non-nil [err]. *)
  url_Parse : string -> option ParsedURL;
  ResolveReference : ParsedURL -> ParsedURL -> ParsedURL;
  URL_String : ParsedURL -> string
}.

Section Network.
Context `{P : Platform}.

(** The network together with the log of the calls of [client.Get] made
    so far: [requests] holds the URL of every call, one entry per call,
    whatever the library then does with it (one request, several when it
    follows redirects, none when it refuses the URL). *)
Record Net := mkNet { requests : list string; world : World }.

Definition client_Get (timeout : Z) (url : string) (net : Net)
  : option Response * Net :=
  let '(resp, w) := http_Get timeout url (world net) in
  (resp, mkNet (requests net ++ [url]) w).

(** [err != nil || (resp.StatusCode >= 400 && resp.StatusCode <= 599)] *)
Definition probe_failed (resp : option Response) : bool :=
  match resp with
  | None => true
  | Some r => (400 <=? StatusCode r) && (StatusCode r <=? 599)
  end.

(** *** checkInaccessibleLinks *)

(** The loop over the attributes of an anchor; the state is the slice
    [links] and the network. *)
Fixpoint href_loop (baseURL : string) (attrs : list Attribute)
    (s : list string * Net) : list string * Net :=
  match attrs with
  | [] => s
  | attr :: rest =>
      if String.eqb (Key attr) "href" then
        match url_Parse (Val attr) with
        | None => href_loop baseURL rest s
        | Some link =>
            match url_Parse baseURL with
            | None => href_loop baseURL rest s
            | Some base =>
                let resolvedLink := ResolveReference base link in
                let '(resp, net) :=
                  client_Get 10 (URL_String resolvedLink) (snd s) in
                href_loop baseURL rest
                  (if probe_failed resp
                   then (fst s ++ [URL_String resolvedLink], net)
                   else (fst s, net))
            end
        end
      else href_loop baseURL rest s
  end.

Fixpoint check_f (baseURL : string) (n : Node) (s : list string * Net)
  : list string * Net :=
  match n with
  | MkNode ty data attrs kids =>
      fold_left (fun acc c => check_f baseURL c acc) kids
        (if bool_decide (ty = ElementNode) && String.eqb data "a"
         then href_loop baseURL attrs s else s)
  end.

Definition checkInaccessibleLinks (doc : Node) (baseURL : string) (net : Net)
  : list string * Net :=
  check_f baseURL doc ([], net).

(** *** analyzeURL *)

Inductive AnalyzeError := GetError | ParseError.

Definition analyzeURL (urlStr : string) (net : Net)
  : (AnalyzeError + Analysis) * Net :=
  match client_Get 30 urlStr net with
  | (None, net1) => (inl GetError, net1)
  | (Some resp, net1) =>
      match html_Parse (Body resp) with
      | None => (inl ParseError, net1)
      | Some doc =>
          let analysis := Walker.f doc (new_Analysis urlStr) in
          let analysis :=
            set_HTMLVersion (HtmlVersion.getHTMLVersion doc) analysis in
          let '(links, net2) :=
            checkInaccessibleLinks doc (URL analysis) net1 in
          (inr (set_links links analysis), net2)
      end
  end.

(** *** The link check in the words of its description

    For every [href] value of an anchor, in traversal order: a value
    that does not parse is skipped; any other is resolved against the
    base, requested once, and recorded when the request fails or
    answers 400 to 599. *)
Definition answer_broken (resp : option Response) : bool :=
  match resp with
  | None => true
  | Some r => bool_decide (400 <= StatusCode r <= 599)
  end.

Fixpoint probe_each (base : ParsedURL) (hrefs : list string)
    (s : list string * Net) : list string * Net :=
  match hrefs with
  | [] => s
  | v :: rest =>
      match url_Parse v with
      | None => probe_each base rest s
      | Some link =>
          let target := URL_String (ResolveReference base link) in
          let '(resp, net) := client_Get 10 target (snd s) in
          probe_each base rest
            (if answer_broken resp then (fst s ++ [target], net)
             else (fst s, net))
      end
  end.

(** The requests of the link check with the answer each one got, the
    network being what the requests before left. *)
Fixpoint probe_answers (base : ParsedURL) (hrefs : list string) (net : Net)
  : list (string * option Response) :=
  match hrefs with
  | [] => []
  | v :: rest =>
      match url_Parse v with
      | None => probe_answers base rest net
      | Some link =>
          let target := URL_String (ResolveReference base link) in
          let '(resp, net') := client_Get 10 target net in
          (target, resp) :: probe_answers base rest net'
      end
  end.

(** The targets requested for a list of [href] values: one per value that
    parses, repeated values repeated. *)
Definition probe_targets (base : ParsedURL) (hrefs : list string)
  : list string :=
  flat_map (fun v => match url_Parse v with
                     | None => []
                     | Some link => [URL_String (ResolveReference base link)]
                     end) hrefs.

End Network.

(** ** The job store: schema.sql and the statements the program sends *)

Module Store.

(** A row of [analyses]; the primary key is the key of the table.  The
    columns without [NOT NULL] or [DEFAULT] start as [NULL]. *)
Record Row := mkRow {
  url : string;
  html_version : option string;
  title : option string;
  h1_count : Z;
  h2_count : Z;
  h3_count : Z;
  h4_count : Z;
  h5_count : Z;
  h6_count : Z;
  internal_links : Z;
  external_links : Z;
  inaccessible_links : Z;
  has_login_form : option bool;
  status : string
}.

(** A row of [broken_links]. *)
Record LinkRow := mkLinkRow { analysis_id : Z; link : string }.

Record DB := mkDB {
  analyses : gmap Z Row;
  broken_links : list LinkRow;
  auto_increment : Z
}.

Definition set_status (st : string) (r : Row) : Row :=
  mkRow (url r) (html_version r) (title r) (h1_count r) (h2_count r)
    (h3_count r) (h4_count r) (h5_count r) (h6_count r) (internal_links r)
    (external_links r) (inaccessible_links r) (has_login_form r) st.

(** The columns written by the [UPDATE] of the result, [status] among
    them. *)
Definition set_result (a : Analysis) (st : string) (r : Row) : Row :=
  mkRow (url r) (Some (HTMLVersion a)) (Some (Title a)) (H1Count a)
    (H2Count a) (H3Count a) (H4Count a) (H5Count a) (H6Count a)
    (InternalLinks a) (ExternalLinks a) (InaccessibleLinks a)
    (Some (HasLoginForm a)) st.

(** [INSERT INTO analyses (url, status) VALUES (?, ?)] *)
Definition insert_analysis (u st : string) (db : DB) : Z * DB :=
  let id := auto_increment db in
  (id, mkDB (<[id := mkRow u None None 0 0 0 0 0 0 0 0 0 None st]>
               (analyses db))
            (broken_links db) (id + 1)).

(** [UPDATE analyses SET status = ? WHERE id = ?] *)
Definition update_status (st : string) (id : Z) (db : DB) : DB :=
  mkDB (alter (set_status st) id (analyses db)) (broken_links db)
    (auto_increment db).

(** [UPDATE analyses SET html_version = ?, ..., status = ? WHERE id = ?] *)
Definition update_result (a : Analysis) (st : string) (id : Z) (db : DB)
  : DB :=
  mkDB (alter (set_result a st) id (analyses db)) (broken_links db)
    (auto_increment db).

(** [INSERT INTO broken_links (analysis_id, link) VALUES (?, ?)]; the
    foreign key refuses an [analysis_id] without its row. *)
Definition insert_broken_link (id : Z) (l : string) (db : DB) : option DB :=
  match analyses db !! id with
  | None => None
  | Some _ =>
      Some (mkDB (analyses db) (broken_links db ++ [mkLinkRow id l])
              (auto_increment db))
  end.

(** [SELECT id, url FROM analyses WHERE status = ?] *)
Definition select_by_status (st : string) (db : DB) : list (Z * string) :=
  map (fun kr => (fst kr, url (snd kr)))
    (List.filter (fun kr => String.eqb (status (snd kr)) st)
       (map_to_list (analyses db))).

(** [SELECT status FROM analyses WHERE id = ?] *)
Definition select_status (id : Z) (db : DB) : option string :=
  status <$> analyses db !! id.

(** [SELECT link FROM broken_links WHERE analysis_id = ?] *)
Definition select_links (id : Z) (db : DB) : list string :=
  map link (List.filter (fun r => Z.eqb (analysis_id r) id) (broken_links db)).

(** [DELETE FROM analyses WHERE id = ?], with [ON DELETE CASCADE]. *)
Definition delete_analysis (id : Z) (db : DB) : DB :=
  mkDB (delete id (analyses db))
    (List.filter (fun r => negb (Z.eqb (analysis_id r) id)) (broken_links db))
    (auto_increment db).

End Store.

(** ** The handlers, the worker and the execution of one job *)

Module Jobs.
Import Store.

(** Each handler on the path where its statement succeeds; on an error
    the handler answers 500 and the store is as before. *)
Definition analyzeHandler (u : string) (db : DB) : Z * DB :=
  insert_analysis u "queued" db.
Definition rerunHandler (id : Z) (db : DB) : DB :=
  update_status "queued" id db.
Definition startAnalysisHandler (id : Z) (db : DB) : DB :=
  update_status "queued" id db.
Definition stopAnalysisHandler (id : Z) (db : DB) : DB :=
  update_status "stopped" id db.
Definition deleteAnalysisHandler (id : Z) (db : DB) : DB :=
  delete_analysis id db.

(** The body of the row loop of [getAnalysesHandler]: the row scanned
    into an [Analysis], [NULL] read as the zero value, and the broken
    links of the job attached. *)
Definition getAnalyses_row (id : Z) (r : Row) (db : DB) : Analysis :=
  mkAnalysis id (url r) (default EmptyString (html_version r))
    (default EmptyString (title r)) (h1_count r) (h2_count r) (h3_count r)
    (h4_count r) (h5_count r) (h6_count r) (internal_links r)
    (external_links r) (inaccessible_links r) (select_links id db)
    (default false (has_login_form r)) (status r).

Definition getAnalysis (id : Z) (db : DB) : option Analysis :=
  (fun r => getAnalyses_row id r db) <$> analyses db !! id.

(** Which statements of one execution fail.  Any of them can: the
    connection drops, a value does not fit its column. *)
Record Faults := mkFaults {
  fail_running : bool;
  fail_select : bool;
  fail_error : bool;
  fail_begin : bool;
  fail_update : bool;
  fail_insert : nat -> bool;
  fail_commit : bool
}.

Definition no_faults : Faults :=
  mkFaults false false false false false (fun _ => false) false.

(** The loop of [tx.Exec("INSERT INTO broken_links ...")] on the
    transaction's own view; [None] when a statement fails. *)
Fixpoint insert_links (fl : Faults) (id : Z) (k : nat) (links : list string)
    (tx : DB) : option DB :=
  match links with
  | [] => Some tx
  | l :: rest =>
      if fail_insert fl k then None
      else match insert_broken_link id l tx with
           | None => None
           | Some tx' => insert_links fl id (S k) rest tx'
           end
  end.

(** From [db.Begin()] to [tx.Commit()].  The statements run on the
    transaction's view of the store, which starts as the store itself;
    the store changes only when the commit succeeds.  [tx.Rollback()]
    and a failed commit leave it as it was. *)
Definition commit_analysis (fl : Faults) (id : Z) (a : Analysis) (db : DB)
  : DB :=
  if fail_begin fl then db
  else
    let tx := db in
    if fail_update fl then db
    else
      let tx := update_result a "done" id tx in
      match insert_links fl id 0 (BrokenLinks a) tx with
      | None => db
      | Some tx => if fail_commit fl then db else tx
      end.

(** Some statement between [db.Begin()] and [tx.Commit()] fails. *)
Definition commit_fails (fl : Faults) (a : Analysis) : bool :=
  fail_begin fl || fail_update fl
  || existsb (fail_insert fl) (seq 0 (length (BrokenLinks a)))
  || fail_commit fl.

(** The store with the whole result of job [id] in it: every result
    column and [done] in the row, one link row per broken link after the
    link rows already there. *)
Definition committed (id : Z) (a : Analysis) (r : Row) (db : DB) : DB :=
  mkDB (<[id := set_result a "done" r]> (analyses db))
    (broken_links db ++ map (mkLinkRow id) (BrokenLinks a))
    (auto_increment db).

Section Execution.
Context `{P : Platform}.

(** Where an execution of [processAnalysis] stands: before each of its
    statements and calls. *)
Inductive PC :=
| AtUpdateRunning
| AtStoppedCheck
| AtAnalyze
| AtSetError
| AtCommit (analysis : Analysis)
| Returned.

Record Exec := mkExec { ex_id : Z; ex_url : string; ex_pc : PC }.

(** One statement or call of [processAnalysis(id, url)]. *)
Definition exec_step (fl : Faults) (e : Exec) (db : DB) (net : Net)
  : Exec * DB * Net :=
  let id := ex_id e in
  let at_ pc := mkExec id (ex_url e) pc in
  match ex_pc e with
  | AtUpdateRunning =>
      if fail_running fl then (at_ Returned, db, net)
      else (at_ AtStoppedCheck, update_status "running" id db, net)
  | AtStoppedCheck =>
      let status :=
        if fail_select fl then EmptyString
        else default EmptyString (select_status id db) in
      if String.eqb status "stopped" then (at_ Returned, db, net)
      else (at_ AtAnalyze, db, net)
  | AtAnalyze =>
      match analyzeURL (ex_url e) net with
      | (inl _, net') => (at_ AtSetError, db, net')
      | (inr analysis, net') => (at_ (AtCommit analysis), db, net')
      end
  | AtSetError =>
      (at_ Returned,
       if fail_error fl then db else update_status "error" id db, net)
  | AtCommit analysis =>
      (at_ Returned, commit_analysis fl id analysis db, net)
  | Returned => (e, db, net)
  end.

(** The process: the store, the network and the executions started and
    not awaited. *)
Record System := mkSystem {
  sys_db : DB;
  sys_net : Net;
  sys_execs : list Exec
}.

Inductive Request :=
| ReqAnalyze (u : string)
| ReqRerun (id : Z)
| ReqStart (id : Z)
| ReqStop (id : Z)
| ReqDelete (id : Z).

Definition handle (r : Request) (db : DB) : DB :=
  match r with
  | ReqAnalyze u => snd (analyzeHandler u db)
  | ReqRerun id => rerunHandler id db
  | ReqStart id => startAnalysisHandler id db
  | ReqStop id => stopAnalysisHandler id db
  | ReqDelete id => deleteAnalysisHandler id db
  end.

(** One pass of the loop of [startWorker]: the executions it starts.  A
    failed query starts none; a row whose [Scan] fails is passed over. *)
Definition startWorker_poll (query_fails : bool) (scan_fails : Z -> bool)
    (db : DB) : list Exec :=
  if query_fails then []
  else map (fun j => mkExec (fst j) (snd j) AtUpdateRunning)
         (List.filter (fun j => negb (scan_fails (fst j)))
            (select_by_status "queued" db)).

(** What can happen next: the worker polls, the [k]-th execution runs
    its next statement, a request arrives. *)
Inductive Event :=
| Poll (query_fails : bool) (scan_fails : Z -> bool)
| Advance (k : nat) (fl : Faults)
| Incoming (r : Request).

Definition sys_step (s : System) (ev : Event) : System :=
  match ev with
  | Poll query_fails scan_fails =>
      mkSystem (sys_db s) (sys_net s)
        (sys_execs s ++ startWorker_poll query_fails scan_fails (sys_db s))
  | Advance k fl =>
      match sys_execs s !! k with
      | None => s
      | Some e =>
          let '(e', db, net) := exec_step fl e (sys_db s) (sys_net s) in
          mkSystem db net (<[k := e']> (sys_execs s))
      end
  | Incoming r => mkSystem (handle r (sys_db s)) (sys_net s) (sys_execs s)
  end.

Definition run (s : System) (evs : list Event) : System :=
  fold_left sys_step evs s.

(** A poll in which the query and every [Scan] succeed. *)
Definition poll_ok : Event := Poll false (fun _ => false).

(** [processAnalysis(id, url)] run from start to return with nothing
    in between. *)
Definition processAnalysis (fl : Faults) (id : Z) (u : string) (db : DB)
    (net : Net) : DB * Net :=
  let s := run (mkSystem db net [mkExec id u AtUpdateRunning])
             (replicate 4 (Advance 0 fl)) in
  (sys_db s, sys_net s).

End Execution.
End Jobs.

(** ** Sample documents and a sample platform

    Small inputs on which the definitions above are run. *)

Module Sample.

Definition text (t : string) : Node := MkNode TextNode t [] [].
Definition elem (tag : string) (attrs : list Attribute) (kids : list Node)
  : Node := MkNode ElementNode tag attrs kids.
Definition attr (k v : string) : Attribute := mkAttr EmptyString k v.
Definition document (kids : list Node) : Node :=
  MkNode DocumentNode EmptyString [] kids.
Definition doctype (name : string) : Node := MkNode DoctypeNode name [] [].

(** [<a href="/x" href="/y">twice</a>] *)
Definition double_href_page : Node :=
  document [elem "html" [] [elem "head" [] [];
    elem "body" [] [elem "a" [attr "href" "/x"; attr "href" "/y"]
                      [text "twice"]]]].

(** Five anchors: two with values starting with [http], two without, one
    without [href]. *)
Definition links_page : Node :=
  document [elem "html" [] [elem "head" [] [];
    elem "body" []
      [elem "a" [attr "href" "https://example.com/a"] [text "a"];
       elem "p" [] [elem "a" [attr "href" "httphony://x"] []];
       elem "a" [attr "href" "HTTP://UP"] [];
       elem "a" [attr "class" "nav"; attr "href" "/rel"] [];
       elem "a" [attr "name" "top"] []]]].

(** [<title>First</title><title>Second</title>] *)
Definition two_titles_page : Node :=
  document [elem "html" []
    [elem "head" [] [elem "title" [] [text "First"];
                     elem "title" [] [text "Second"]];
     elem "body" [] []]].

(** A password input outside the only form of the page. *)
Definition loose_password_page : Node :=
  document [elem "html" [] [elem "head" [] [];
    elem "body" []
      [elem "form" [attr "action" "/search"]
         [elem "input" [attr "type" "text"] []];
       elem "div" [] [elem "input" [attr "type" "password"] []]]]].

(** Two doctype nodes under the document node. *)
Definition two_doctypes : Node :=
  document [doctype "html 4.01"; doctype "xhtml 1.0"; elem "html" [] []].

(** A page with one live link, one dead link met twice, one link that
    does not parse and one that answers 404. *)
Definition probe_page : Node :=
  document [doctype "html"; elem "html" []
    [elem "head" [] [elem "title" [] [text "Example"]];
     elem "body" []
       [elem "h1" [] [text "Example"];
        elem "a" [attr "href" "/ok"] [];
        elem "a" [attr "href" "http://dead.test/"] [];
        elem "a" [attr "href" ":bad"] [];
        elem "a" [attr "href" "/missing"] [];
        elem "a" [attr "href" "http://dead.test/"] []]]].

(** A platform for the samples: URLs are their text, a reference
    starting with a colon does not parse, a reference starting with
    [http] is absolute and any other is appended to the base; the
    network counts the requests it has seen. *)
Definition sample_get (timeout : Z) (u : string) (w : nat)
  : option Response * nat :=
  (if Contains u "dead" then None
   else if Contains u "missing" then Some (mkResponse 404 EmptyString)
   else if Contains u "broken-page" then Some (mkResponse 200 "garbage")
   else Some (mkResponse 200 "page"),
   S w).

Definition sample_parse (body : string) : option Node :=
  if String.eqb body "page" then Some probe_page else None.

Definition sample_url_parse (v : string) : option string :=
  if HasPrefix v ":" then None else Some v.

Definition sample_resolve (base ref : string) : string :=
  if HasPrefix ref "http" then ref else base +:+ ref.

Global Instance sample_platform : Platform := {|
  World := nat;
  http_Get := sample_get;
  html_Parse := sample_parse;
  ParsedURL := string;
  url_Parse := sample_url_parse;
  ResolveReference := sample_resolve;
  URL_String := fun u => u
|}.

Definition net0 : Net := mkNet [] 0%nat.

Definition base_url : string := "https://example.com".

(** What [analyzeURL] returns for the sample page. *)
Definition sample_run : (AnalyzeError + Analysis) * Net :=
  Eval vm_compute in analyzeURL base_url net0.

Definition sample_analysis : Analysis :=
  mkAnalysis 0 base_url "HTML5" "Example" 1 0 0 0 0 0 3 2 3
    ["http://dead.test/"; "https://example.com/missing";
     "http://dead.test/"] false EmptyString.

Import Store Jobs.

Definition empty_db : DB := mkDB ∅ [] 1.

(** Job 1, submitted and waiting. *)
Definition queued_db : DB := snd (analyzeHandler base_url empty_db).

(** An earlier result for job 1, with one broken link. *)
Definition earlier_analysis : Analysis :=
  mkAnalysis 0 base_url "HTML5" "Example" 1 0 0 0 0 0 1 0 1
    ["https://example.com/old"] false EmptyString.

(** Job 1 after a first run that ended in [done]. *)
Definition done_db : DB :=
  commit_analysis no_faults 1 earlier_analysis
    (update_status "running" 1 queued_db).

(** The third insert of the link rows fails. *)
Definition third_insert_fails : Faults :=
  mkFaults false false false false false (fun k => (k =? 2)%nat) false.

End Sample.

(** ** Further parts of the program *)

(** [analysis.H<k>Count] and the tag that increments it. *)
Definition HCount (k : nat) (a : Analysis) : Z :=
  match k with
  | 1%nat => H1Count a
  | 2%nat => H2Count a
  | 3%nat => H3Count a
  | 4%nat => H4Count a
  | 5%nat => H5Count a
  | 6%nat => H6Count a
  | _ => 0
  end.

Definition heading_tag (k : nat) : string :=
  match k with
  | 1%nat => "h1"
  | 2%nat => "h2"
  | 3%nat => "h3"
  | 4%nat => "h4"
  | 5%nat => "h5"
  | 6%nat => "h6"
  | _ => EmptyString
  end.

(** The element nodes of the tree that carry a given tag. *)
Definition elements_named (tag : string) (doc : Node) : list Node :=
  List.filter (is_element tag) (preorder doc).

(** An [Analysis] as [getAnalysesHandler] fills [ID] and [Status] in. *)
Definition with_ID_Status (id : Z) (st : string) (a : Analysis) : Analysis :=
  mkAnalysis id (URL a) (HTMLVersion a) (Title a) (H1Count a) (H2Count a)
    (H3Count a) (H4Count a) (H5Count a) (H6Count a) (InternalLinks a)
    (ExternalLinks a) (InaccessibleLinks a) (BrokenLinks a) (HasLoginForm a)
    st.

(** *** The doctype of a document, for getHTMLVersion *)

(** The doctype nodes of the tree in pre-order. *)
Definition doctype_nodes (doc : Node) : list Node :=
  List.filter (fun n => bool_decide (Type_ n = DoctypeNode)) (preorder doc).

(** The first doctype node found in pre-order. *)
Definition first_doctype (doc : Node) : option Node :=
  head (doctype_nodes doc).

(** The rules of the classification in their priority order: what a value
    must satisfy and the version it then gets. *)
Definition version_rules : list ((string -> bool) * string) :=
  [ (fun v => Contains (ToLower v) "html 5" || String.eqb v "html", "HTML5");
    (fun v => Contains (ToLower v) "xhtml 1.1", "XHTML 1.1");
    (fun v => Contains (ToLower v) "xhtml 1.0", "XHTML 1.0");
    (fun v => Contains (ToLower v) "html 4.01", "HTML 4.01");
    (fun v => Contains (ToLower v) "html 4.0", "HTML 4.0") ].

(** The version of the first rule that the value satisfies, HTML5 when it
    satisfies none. *)
Definition classify_by_rules (v : string) : string :=
  match find (fun rule => fst rule v) version_rules with
  | Some rule => snd rule
  | None => "HTML5"
  end.

(** A page declared as XHTML 1.0, the whole declaration taken as the
    value of the doctype node. *)
Definition xhtml_strict_page : Node :=
  Sample.document
    [Sample.doctype "-//W3C//DTD XHTML 1.0 Strict//EN";
     Sample.elem "html" [] [Sample.elem "body" [] []]].


(** *** authMiddleware *)

Module Auth.

(** [strings.Split(s, sep)] for a separator of one byte, which is how the
    program calls it: the pieces between the separators, one more than
    there are separators. *)
Fixpoint Split (s : string) (sep : Ascii.ascii) : list string :=
  match s with
  | EmptyString => [EmptyString]
  | String c s' =>
      if Ascii.eqb c sep then EmptyString :: Split s' sep
      else match Split s' sep with
           | piece :: pieces => String c piece :: pieces
           | [] => [String c EmptyString]
           end
  end.

(** What the middleware does with the request: [c.AbortWithStatusJSON]
    with a status and an error text, or [c.Next()]. *)
Inductive Outcome :=
| Abort (status : Z) (error : string)
| Next.

(** [authHeader] is [c.GetHeader("Authorization")], empty when the header
    is absent. *)
Definition authMiddleware (authHeader : string) : Outcome :=
  if String.eqb authHeader EmptyString
  then Abort 401 "Authorization header required"
  else
    match Split authHeader Ascii.Space with
    | [scheme; token] =>
        if negb (String.eqb scheme "Bearer")
        then Abort 401 "Invalid authorization header"
        else if String.eqb token EmptyString
             then Abort 401 "Token not found"
             else Next
    | _ => Abort 401 "Invalid authorization header"
    end.

(** The header the page sends for an API key: [`Bearer ${apiKey}`]. *)
Definition bearer (apiKey : string) : string := "Bearer " +:+ apiKey.

End Auth.

(** *** main: connecting to the database *)

Module Startup.

(** How one pass of the retry loop ends. *)
Inductive Attempt := OpenFails | PingFails | Connected.

(** The loop [for i := 0; i < 30; i++] from pass [i] with [left] passes
    to go: whether [err] is non-nil after the loop, the passes made and
    the two-second sleeps taken. *)
Fixpoint connect_loop (outcome : nat -> Attempt) (i left : nat)
    (err : bool) (sleeps : nat) : bool * nat * nat :=
  match left with
  | O => (err, i, sleeps)
  | S left' =>
      match outcome i with
      | OpenFails => connect_loop outcome (S i) left' true (S sleeps)
      | PingFails => connect_loop outcome (S i) left' true (S sleeps)
      | Connected => (false, S i, sleeps)
      end
  end.

(** [main] up to [createTable()]: [None] for [log.Fatal], else the passes
    made and the sleeps taken. *)
Definition connect (outcome : nat -> Attempt) : option (nat * nat) :=
  match connect_loop outcome 0 30 false 0 with
  | (true, _, _) => None
  | (false, passes, sleeps) => Some (passes, sleeps)
  end.

End Startup.

(** *** The store as the statements keep it *)

Module StoreInv.
Import Store.

(** Every key was handed out by the counter, and every link row belongs
    to a row of [analyses]. *)
Definition well_formed (db : DB) : Prop :=
  (forall id r, analyses db !! id = Some r -> id < auto_increment db) /\
  (forall lr, lr ∈ broken_links db -> is_Some (analyses db !! analysis_id lr)).


End StoreInv.

(** * Properties *)

(** ** Arithmetic of [int] *)

Lemma wrap_int_small z : - 2 ^ 63 <= z < 2 ^ 63 -> wrap_int z = z.
Proof.
  intros Hz. unfold wrap_int.
  rewrite Z.mod_small; lia.
Qed.





(** ** Traversal lemmas *)

Lemma HasPrefix_spec s p : HasPrefix s p = true <-> exists rest, s = p +:+ rest.
Proof.
  revert s. induction p as [|c p IH]; intros s.
  - split; [intros _; by exists s | by destruct s].
  - destruct s as [|d s]; simpl.
    + split; [done | intros [rest Hr]].
      change (EmptyString = String c (p +:+ rest)) in Hr. discriminate.
    + destruct (Ascii.eqb d c) eqn:E.
      * apply Ascii.eqb_eq in E as ->. rewrite IH.
        split; intros [rest Hr]; exists rest.
        -- change (String c s = String c (p +:+ rest)). by rewrite Hr.
        -- change (String c s = String c (p +:+ rest)) in Hr. congruence.
      * apply Ascii.eqb_neq in E.
        split; [done | intros [rest Hr]].
        change (String d s = String c (p +:+ rest)) in Hr. congruence.
Qed.

Lemma collect_node {A} (g : Node -> list A) ty data attrs kids :
  collect g (MkNode ty data attrs kids)
  = g (MkNode ty data attrs kids) ++ flat_map (collect g) kids.
Proof.
  unfold collect. simpl. f_equal.
  induction kids as [|c kids IH]; simpl; [done|].
  by rewrite flat_map_app, IH.
Qed.

Lemma existsb_preorder_node (p : Node -> bool) ty data attrs kids :
  existsb p (preorder (MkNode ty data attrs kids))
  = p (MkNode ty data attrs kids) || existsb (fun c => existsb p (preorder c)) kids.
Proof.
  simpl. f_equal.
  induction kids as [|c kids IH]; simpl; [done|].
  by rewrite existsb_app, IH.
Qed.

(** A field of the accumulator followed through the loop over the
    children, when each child's walk acts on the field by [g]. *)
Lemma fold_children_field {B} (F : Node -> Analysis -> Analysis)
    (proj : Analysis -> B) (g : Node -> B -> B) (kids : list Node) :
  Forall (fun c => forall a, proj (F c a) = g c (proj a)) kids ->
  forall a, proj (fold_left (fun acc c => F c acc) kids a)
            = fold_left (fun b c => g c b) kids (proj a).
Proof.
  induction 1 as [|c kids Hc _ IH]; intros a; simpl; [done|].
  by rewrite IH, Hc.
Qed.

Lemma incr_times_add p q x :
  incr_times (p + q) x = incr_times q (incr_times p x).
Proof. unfold incr_times. by rewrite Nat.add_comm, Nat.iter_add. Qed.

Lemma incr_times_S k x : incr_times (S k) x = incr_times k (incr x).
Proof. unfold incr_times. by rewrite Nat.iter_succ_r. Qed.

(** Below the top of the range the increments are plain additions. *)
Lemma incr_times_exact k x :
  - 2 ^ 63 <= x -> x + Z.of_nat k < 2 ^ 63 -> incr_times k x = x + Z.of_nat k.
Proof.
  unfold incr_times. induction k as [|k IH]; intros Hlo Hhi; simpl; [lia|].
  rewrite IH by lia. unfold incr. rewrite wrap_int_small; lia.
Qed.

Module WalkerFacts.
Import Walker.


Lemma action_loop_eq attrs a :
  action_loop attrs a
  = if existsb (fun attr => String.eqb (Key attr) "action" &&
                            (Contains (Val attr) "login" ||
                             Contains (Val attr) "signin")) attrs
    then set_HasLoginForm true a else a.
Proof.
  induction attrs as [|attr rest IH]; simpl; [done|].
  by destruct (_ && _).
Qed.

Lemma password_attr_eq attrs :
  password_attr attrs
  = existsb (fun attr => String.eqb (Key attr) "type" &&
                         String.eqb (Val attr) "password") attrs.
Proof.
  induction attrs as [|attr rest IH]; simpl; [done|].
  by destruct (_ && _).
Qed.

Lemma fold_flag (p : Node -> bool) kids :
  Forall (fun c => forall a, checkForPassword c a
                             = if p c then set_HasLoginForm true a else a) kids ->
  forall a, fold_left (fun acc c => checkForPassword c acc) kids a
            = if existsb p kids then set_HasLoginForm true a else a.
Proof.
  induction 1 as [|c kids Hc _ IH]; intros a; simpl; [done|].
  rewrite IH, Hc. by destruct (p c), (existsb p kids).
Qed.

(** The password scan sets the flag exactly when a password input lies at
    or below the node it is started on, and touches nothing else. *)
Lemma checkForPassword_eq n a :
  checkForPassword n a
  = if password_below n then set_HasLoginForm true a else a.
Proof.
  revert a. induction n as [ty data attrs kids IH] using Node_ind'.
  intros a. unfold password_below. rewrite existsb_preorder_node.
  simpl checkForPassword.
  unfold is_password_input at 1, is_element. simpl Type_. simpl Data.
  simpl Attr. rewrite password_attr_eq.
  destruct (_ && _ && _); [done|].
  rewrite orb_false_l. by apply fold_flag.
Qed.

Lemma anchor_loop_flag attrs a :
  HasLoginForm (anchor_loop attrs a) = HasLoginForm a.
Proof.
  revert a. induction attrs as [|attr rest IH]; intros a; simpl; [done|].
  destruct (String.eqb _ _); [destruct (HasPrefix _ _)|]; by rewrite IH.
Qed.

Lemma anchor_loop_Title attrs a : Title (anchor_loop attrs a) = Title a.
Proof.
  revert a. induction attrs as [|attr rest IH]; intros a; simpl; [done|].
  destruct (String.eqb _ _); [destruct (HasPrefix _ _)|]; by rewrite IH.
Qed.

Lemma anchor_loop_External attrs a :
  ExternalLinks (anchor_loop attrs a)
  = incr_times (length (List.filter external_href
                          (map Val (List.filter is_href attrs))))
      (ExternalLinks a).
Proof.
  revert a. induction attrs as [|attr rest IH]; intros a; simpl; [done|].
  unfold is_href at 1. destruct (String.eqb _ _); simpl; [|by rewrite IH].
  unfold external_href at 1.
  destruct (HasPrefix _ _); rewrite IH; [|done].
  cbn [length]. by rewrite incr_times_S.
Qed.

Lemma anchor_loop_Internal attrs a :
  InternalLinks (anchor_loop attrs a)
  = incr_times (length (List.filter (fun v => negb (external_href v))
                          (map Val (List.filter is_href attrs))))
      (InternalLinks a).
Proof.
  revert a. induction attrs as [|attr rest IH]; intros a; simpl; [done|].
  unfold is_href at 1. destruct (String.eqb _ _); simpl; [|by rewrite IH].
  unfold external_href at 1.
  destruct (HasPrefix _ _); cbn [negb]; rewrite IH; [done|].
  cbn [length]. by rewrite incr_times_S.
Qed.

(** Case analysis on the [switch n.Data] of [visit_element]. *)
Ltac tag_cases n :=
  unfold visit_element;
  repeat match goal with
    | |- context [String.eqb (Data n) ?t] =>
        let E := fresh "E" in
        destruct (String.eqb_spec (Data n) t) as [E|E];
        [rewrite ?E; cbn [String.eqb Ascii.eqb Bool.eqb andb]|]
    end.

Ltac form_case n :=
  rewrite ?action_loop_eq, ?checkForPassword_eq;
  repeat match goal with
    | |- context [if ?b then _ else _] => destruct b; cbn
    end.

Lemma visit_External n a :
  ExternalLinks (visit n a)
  = incr_times (length (List.filter external_href (own_hrefs n)))
      (ExternalLinks a).
Proof.
  unfold visit, own_hrefs, is_element.
  destruct (bool_decide _); cbn [andb]; [|done].
  tag_cases n; try done.
  - by destruct (FirstChild n).
  - apply anchor_loop_External.
  - by form_case n.
Qed.

Lemma visit_Internal n a :
  InternalLinks (visit n a)
  = incr_times (length (List.filter (fun v => negb (external_href v))
                          (own_hrefs n)))
      (InternalLinks a).
Proof.
  unfold visit, own_hrefs, is_element.
  destruct (bool_decide _); cbn [andb]; [|done].
  tag_cases n; try done.
  - by destruct (FirstChild n).
  - apply anchor_loop_Internal.
  - by form_case n.
Qed.

Lemma visit_Title n a :
  Title (visit n a) = default (Title a) (last (own_title n)).
Proof.
  unfold visit, own_title, is_element.
  destruct (bool_decide _); cbn [andb]; [|done].
  tag_cases n; try done.
  - by destruct (FirstChild n).
  - apply anchor_loop_Title.
  - by form_case n.
Qed.

Lemma anchor_loop_URL attrs a : URL (anchor_loop attrs a) = URL a.
Proof.
  revert a. induction attrs as [|attr rest IH]; intros a; simpl; [done|].
  destruct (String.eqb _ _); [destruct (HasPrefix _ _)|]; by rewrite IH.
Qed.

Lemma visit_URL n a : URL (visit n a) = URL a.
Proof.
  unfold visit. destruct (bool_decide _); [|done].
  tag_cases n; try done.
  - by destruct (FirstChild n).
  - apply anchor_loop_URL.
  - by form_case n.
Qed.

Lemma visit_flag n a :
  HasLoginForm (visit n a)
  = HasLoginForm a
    || is_element "form" n && (action_matches n || password_below n).
Proof.
  unfold visit, is_element.
  destruct (bool_decide _); cbn [andb]; [|by rewrite orb_false_r].
  tag_cases n; rewrite ?orb_false_r; try done.
  - by destruct (FirstChild n).
  - apply anchor_loop_flag.
  - rewrite action_loop_eq. fold (action_matches n).
    destruct (action_matches n); cbn; [by rewrite orb_true_r|].
    destruct (HasLoginForm a) eqn:Ha; cbn; [done|].
    rewrite checkForPassword_eq. by destruct (password_below n).
Qed.

End WalkerFacts.

(** ** The walk as a whole, field by field *)

Module WalkFields.
Import Walker WalkerFacts.

Lemma fold_incr_times (cnt : Node -> list string) (p : string -> bool) kids x :
  fold_left (fun b c => incr_times (length (List.filter p (cnt c))) b) kids x
  = incr_times (length (List.filter p (flat_map cnt kids))) x.
Proof.
  revert x. induction kids as [|c kids IH]; intros x; simpl; [done|].
  by rewrite IH, List.filter_app, length_app, incr_times_add.
Qed.

Lemma fold_last (txt : Node -> list string) kids x :
  fold_left (fun b c => default b (last (txt c))) kids x
  = default x (last (flat_map txt kids)).
Proof.
  revert x. induction kids as [|c kids IH]; intros x; simpl; [done|].
  rewrite IH, last_app. by destruct (last (flat_map txt kids)).
Qed.

Lemma fold_orb (q : Node -> bool) kids x :
  fold_left (fun b c => b || q c) kids x = x || existsb q kids.
Proof.
  revert x. induction kids as [|c kids IH]; intros x; simpl.
  - by rewrite orb_false_r.
  - by rewrite IH, orb_assoc.
Qed.

Lemma f_filtered (proj : Analysis -> Z) (p : string -> bool) :
  (forall n a, proj (visit n a)
               = incr_times (length (List.filter p (own_hrefs n))) (proj a)) ->
  forall n a, proj (f n a)
              = incr_times (length (List.filter p (anchor_hrefs n))) (proj a).
Proof.
  intros Hv n. induction n as [ty data attrs kids IH] using Node_ind'.
  intros a. cbn [f].
  rewrite (fold_children_field f proj
             (fun c b => incr_times
                           (length (List.filter p (anchor_hrefs c))) b)
             kids IH).
  rewrite Hv, fold_incr_times. unfold anchor_hrefs at 2.
  by rewrite collect_node, List.filter_app, length_app, incr_times_add.
Qed.

Lemma f_External n a :
  ExternalLinks (f n a)
  = incr_times (length (List.filter external_href (anchor_hrefs n)))
      (ExternalLinks a).
Proof. apply f_filtered, visit_External. Qed.

Lemma f_Internal n a :
  InternalLinks (f n a)
  = incr_times (length (List.filter (fun v => negb (external_href v))
                          (anchor_hrefs n)))
      (InternalLinks a).
Proof.
  apply (f_filtered InternalLinks (fun v => negb (external_href v))).
  apply visit_Internal.
Qed.

Lemma f_URL n a : URL (f n a) = URL a.
Proof.
  revert a. induction n as [ty data attrs kids IH] using Node_ind'.
  intros a. cbn [f].
  rewrite (fold_children_field f URL (fun _ b => b) kids IH), visit_URL.
  clear. by induction kids.
Qed.

Lemma f_Title n a :
  Title (f n a) = default (Title a) (last (title_texts n)).
Proof.
  revert a. induction n as [ty data attrs kids IH] using Node_ind'.
  intros a. cbn [f].
  rewrite (fold_children_field f Title
             (fun c b => default b (last (title_texts c))) kids IH).
  rewrite visit_Title, fold_last. unfold title_texts at 2.
  rewrite collect_node, last_app.
  by destruct (last (flat_map _ kids)).
Qed.

Lemma f_flag n a :
  HasLoginForm (f n a) = HasLoginForm a || existsb login_form (preorder n).
Proof.
  revert a. induction n as [ty data attrs kids IH] using Node_ind'.
  intros a. cbn [f].
  rewrite (fold_children_field f HasLoginForm
             (fun c b => b || existsb login_form (preorder c)) kids IH).
  rewrite visit_flag, fold_orb, existsb_preorder_node.
  by rewrite orb_assoc.
Qed.

Lemma existsb_split {A} (p q r : A -> bool) l :
  existsb (fun x => p x && (q x || r x)) l
  = existsb (fun x => p x && q x) l || existsb (fun x => p x && r x) l.
Proof.
  induction l as [|x l IH]; simpl; [done|].
  rewrite IH.
  destruct (p x), (q x), (r x), (existsb (fun x => p x && q x) l); done.
Qed.

(** The flag after the walk: some form names a login in its [action], or
    some form has a password input below it. *)
Lemma f_login n a :
  HasLoginForm (f n a)
  = HasLoginForm a || (form_action_login n || form_password_login n).
Proof.
  rewrite f_flag. unfold login_form, form_action_login, form_password_login.
  by rewrite existsb_split.
Qed.

Lemma filter_split_length {A} (p : A -> bool) l :
  (length (List.filter p l) + length (List.filter (fun x => negb (p x)) l)
   = length l)%nat.
Proof.
  induction l as [|x l IH]; simpl; [done|].
  destruct (p x); simpl; lia.
Qed.

End WalkFields.

(** ** The link counters *)

Section LinkCounters.
Import Walker WalkFields.

Lemma walk_links_exact doc urlStr :
  len (anchor_hrefs doc) < 2 ^ 63 ->
  let r := f doc (new_Analysis urlStr) in
  ExternalLinks r = len (List.filter external_href (anchor_hrefs doc)) /\
  InternalLinks r
  = len (List.filter (fun v => negb (external_href v)) (anchor_hrefs doc)).
Proof.
  intros Hb r. subst r. rewrite f_External, f_Internal. cbn.
  pose proof (filter_split_length external_href (anchor_hrefs doc)) as Hs.
  unfold len in *.
  split; rewrite incr_times_exact; lia.
Qed.

End LinkCounters.

(** C1, as amended: the link counters add up to the number of [href]
    attributes carried by anchor elements, each anchor counted once per
    [href] attribute it carries; an anchor without [href] adds to neither
    counter.  (The bound holds of every tree that fits in memory.) *)
Theorem links_sum_counts_href_attributes (doc : Node) (urlStr : string) :
  len (anchor_hrefs doc) < 2 ^ 63 ->
  let r := Walker.f doc (new_Analysis urlStr) in
  InternalLinks r + ExternalLinks r = len (anchor_hrefs doc).
Proof.
  intros Hb r. destruct (walk_links_exact doc urlStr Hb) as [He Hi].
  subst r. rewrite He, Hi.
  pose proof (WalkFields.filter_split_length external_href (anchor_hrefs doc)).
  unfold len. lia.
Qed.

Lemma links_sum_counts_href_attributes_witness :
  len (anchor_hrefs Sample.links_page) < 2 ^ 63 /\
  len (anchor_hrefs Sample.links_page) = 4 /\
  let r := Walker.f Sample.links_page (new_Analysis "https://example.com") in
  InternalLinks r + ExternalLinks r = len (anchor_hrefs Sample.links_page).
Proof.
  split; [by vm_compute|]. split; [by vm_compute|].
  apply (links_sum_counts_href_attributes Sample.links_page).
  by vm_compute.
Defined.

(** C1, as stated, fails on an anchor that carries two [href] attributes:
    the counters add up to 2, the page has one anchor with an [href]. *)
Lemma links_sum_is_not_anchor_count :
  let r := Walker.f Sample.double_href_page (new_Analysis "https://example.com") in
  InternalLinks r + ExternalLinks r = 2 /\
  len (anchors_with_href Sample.double_href_page) = 1 /\
  InternalLinks r + ExternalLinks r
  <> len (anchors_with_href Sample.double_href_page).
Proof. by vm_compute. Qed.

(** When no anchor carries more than one [href] attribute, the number of
    [href] attributes is the number of anchors that carry one. *)
Lemma single_href_counts_anchors (doc : Node) :
  Forall (fun n => (length (own_hrefs n) <= 1)%nat) (preorder doc) ->
  len (anchor_hrefs doc) = len (anchors_with_href doc).
Proof.
  unfold anchor_hrefs, anchors_with_href, collect, len. intros H. f_equal.
  induction H as [|n l Hn _ IH]; [done|].
  cbn [flat_map List.filter]. rewrite length_app, IH.
  unfold own_hrefs, href_values in *.
  destruct (is_element "a" n); cbn [andb]; [|done].
  rewrite length_map in *.
  induction (Attr n) as [|x attrs IHa]; [done|].
  cbn [List.filter existsb] in *. destruct (is_href x); cbn in *.
  - destruct (List.filter is_href attrs); cbn in *; [done|lia].
  - by apply IHa.
Qed.

(** C9: an [href] value of an anchor is counted as external exactly when
    it starts with the four characters [http], compared as they are, and
    as internal otherwise; nothing else about the value is looked at. *)
Theorem href_external_iff_http_prefix (doc : Node) (urlStr : string) :
  len (anchor_hrefs doc) < 2 ^ 63 ->
  let r := Walker.f doc (new_Analysis urlStr) in
  (forall v, external_href v = true <-> starts_with_http v) /\
  ExternalLinks r = len (List.filter external_href (anchor_hrefs doc)) /\
  InternalLinks r
  = len (List.filter (fun v => negb (external_href v)) (anchor_hrefs doc)).
Proof.
  intros Hb r. split; [|by apply walk_links_exact].
  intros v. apply HasPrefix_spec.
Qed.

Lemma href_external_iff_http_prefix_witness :
  len (anchor_hrefs Sample.links_page) < 2 ^ 63 /\
  let r := Walker.f Sample.links_page (new_Analysis "https://example.com") in
  (forall v, external_href v = true <-> starts_with_http v) /\
  ExternalLinks r
  = len (List.filter external_href (anchor_hrefs Sample.links_page)) /\
  InternalLinks r
  = len (List.filter (fun v => negb (external_href v))
           (anchor_hrefs Sample.links_page)).
Proof.
  split; [by vm_compute|].
  apply (href_external_iff_http_prefix Sample.links_page).
  by vm_compute.
Defined.

(** No scheme boundary, no case folding. *)
Example httphony_is_external :
  external_href "httphony://x" = true /\
  external_href "HTTP://UP" = false /\
  (let r := Walker.f Sample.links_page (new_Analysis "https://example.com") in
   ExternalLinks r = 2 /\ InternalLinks r = 2).
Proof. by vm_compute. Qed.

(** ** The title *)

(** C8, as amended: every [title] element that has a child assigns the
    [Data] of its first child (its text, for a text child), so the title
    of the page is the one assigned by the last such element in traversal
    order; earlier assignments are overwritten. *)
Theorem title_is_last_assignment (doc : Node) (urlStr : string) :
  Title (Walker.f doc (new_Analysis urlStr))
  = default EmptyString (last (title_texts doc)).
Proof. apply WalkFields.f_Title. Qed.

(** C8, as stated, fails on a page with two titles: the second one is
    kept, not the first. *)
Lemma first_title_does_not_win :
  head (title_texts Sample.two_titles_page) = Some "First" /\
  Title (Walker.f Sample.two_titles_page (new_Analysis "https://example.com"))
  = "Second".
Proof. by vm_compute. Qed.

(** ** The login-form flag *)

(** C10: the password scan runs below [form] elements only.  On a page
    where no password input lies below a form, every password input
    being outside all forms, the flag is set exactly when the [action] of
    some form names a login. *)
Theorem password_outside_form_is_not_seen (doc : Node) (urlStr : string) :
  form_password_login doc = false ->
  HasLoginForm (Walker.f doc (new_Analysis urlStr)) = form_action_login doc.
Proof.
  intros Hp. rewrite WalkFields.f_login, Hp. cbn.
  by rewrite orb_false_r.
Qed.

Lemma password_outside_form_is_not_seen_witness :
  existsb is_password_input (preorder Sample.loose_password_page) = true /\
  form_password_login Sample.loose_password_page = false /\
  HasLoginForm (Walker.f Sample.loose_password_page
                  (new_Analysis "https://example.com")) = false.
Proof.
  split; [by vm_compute|]. split; [by vm_compute|].
  rewrite (password_outside_form_is_not_seen Sample.loose_password_page);
    by vm_compute.
Defined.

(** ** The HTML version *)

Lemma doctype_scan_last (n : Node) (version : string) :
  HtmlVersion.f n version = default version (last (doctypes n)).
Proof.
  revert version. induction n as [ty data attrs kids IH] using Node_ind'.
  intros version. cbn [HtmlVersion.f doctypes].
  destruct (bool_decide _); [done|].
  induction IH as [|c kids Hc _ IHk] in version |- *; [done|].
  cbn [fold_left flat_map]. rewrite IHk, Hc, last_app.
  by destruct (last (flat_map doctypes kids)).
Qed.

(** A page with no doctype node is classified as HTML5. *)
Lemma no_doctype_is_HTML5 (doc : Node) :
  doctypes doc = [] -> HtmlVersion.getHTMLVersion doc = "HTML5".
Proof.
  intros H. unfold HtmlVersion.getHTMLVersion.
  by rewrite doctype_scan_last, H.
Qed.

(** With a single doctype node the value classified is that node's. *)
Lemma single_doctype_is_classified (doc : Node) (v : string) :
  doctypes doc = [v] ->
  HtmlVersion.getHTMLVersion doc = HtmlVersion.classify v.
Proof.
  intros H. unfold HtmlVersion.getHTMLVersion.
  by rewrite doctype_scan_last, H.
Qed.

Example classify_table :
  HtmlVersion.classify "html" = "HTML5" /\
  HtmlVersion.classify "HTML 5" = "HTML5" /\
  HtmlVersion.classify "-//W3C//DTD XHTML 1.1//EN" = "XHTML 1.1" /\
  HtmlVersion.classify "-//W3C//DTD XHTML 1.0 Strict//EN" = "XHTML 1.0" /\
  HtmlVersion.classify "-//W3C//DTD HTML 4.01//EN" = "HTML 4.01" /\
  HtmlVersion.classify "-//W3C//DTD HTML 4.0//EN" = "HTML 4.0" /\
  HtmlVersion.classify "HTML" = "HTML5" /\
  HtmlVersion.classify EmptyString = "HTML5".
Proof. by vm_compute. Qed.

(** On a tree built by hand with two doctype nodes the later one
    overwrites the earlier: the [return] leaves one call of the closure
    only.  The parser does not build such a tree. *)
Example doctype_scan_keeps_last_not_first :
  doctypes Sample.two_doctypes = ["html 4.01"; "xhtml 1.0"] /\
  HtmlVersion.classify "html 4.01" = "HTML 4.01" /\
  HtmlVersion.getHTMLVersion Sample.two_doctypes = "XHTML 1.0".
Proof. by vm_compute. Qed.

Lemma doctype_nodes_node ty data attrs kids :
  doctype_nodes (MkNode ty data attrs kids)
  = (if bool_decide (ty = DoctypeNode) then [MkNode ty data attrs kids]
     else [])
    ++ flat_map doctype_nodes kids.
Proof.
  unfold doctype_nodes. cbn [preorder List.filter Type_].
  assert (List.filter
            (fun n => bool_decide (Type_ n = DoctypeNode))
            (flat_map preorder kids)
          = flat_map
              (fun c => List.filter
                          (fun n => bool_decide (Type_ n = DoctypeNode))
                          (preorder c)) kids) as ->.
  { induction kids as [|c kids IH]; [done|].
    cbn [flat_map]. by rewrite List.filter_app, IH. }
  by destruct (bool_decide _).
Qed.

(** The scan meets the first doctype node of the tree first, and meets no
    more doctype nodes than the tree has. *)
Lemma doctypes_first (n : Node) :
  head (doctypes n) = Data <$> head (doctype_nodes n) /\
  (length (doctypes n) <= length (doctype_nodes n))%nat.
Proof.
  induction n as [ty data attrs kids IH] using Node_ind'.
  rewrite doctype_nodes_node. cbn [doctypes].
  destruct (bool_decide (ty = DoctypeNode)).
  { split; [done|]. cbn. lia. }
  cbn [app]. induction IH as [|c kids [Hh Hl] _ [IHh IHl]]; [done|].
  cbn [flat_map]. rewrite !length_app. split; [|lia].
  destruct (doctypes c) as [|d ds]; destruct (doctype_nodes c) as [|m ms];
    try done.
Qed.

(** The chain of tests of [getHTMLVersion] is the rules taken in order. *)
Lemma classify_rules (v : string) :
  HtmlVersion.classify v = classify_by_rules v.
Proof.
  unfold HtmlVersion.classify, classify_by_rules, version_rules.
  cbn [find fst snd].
  destruct (Contains (ToLower v) "html 5" || String.eqb v "html"); [done|].
  destruct (Contains (ToLower v) "xhtml 1.1"); [done|].
  destruct (Contains (ToLower v) "xhtml 1.0"); [done|].
  destruct (Contains (ToLower v) "html 4.01"); [done|].
  by destruct (Contains (ToLower v) "html 4.0").
Qed.

(** C7: on a document with at most one doctype node, which is all the
    parser builds, the version is decided by the first doctype node found
    in pre-order: its value is mapped by the rules in their priority
    order, [html 5] as a substring whatever the case or the exact text
    [html] to HTML5, then the substrings [xhtml 1.1], [xhtml 1.0],
    [html 4.01] and [html 4.0]; a document with no doctype node is HTML5. *)
Theorem html_version_from_first_doctype (doc : Node) :
  (length (doctype_nodes doc) <= 1)%nat ->
  HtmlVersion.getHTMLVersion doc
  = match first_doctype doc with
    | Some d => classify_by_rules (Data d)
    | None => "HTML5"
    end.
Proof.
  intros Hone. unfold HtmlVersion.getHTMLVersion, first_doctype.
  rewrite doctype_scan_last.
  destruct (doctypes_first doc) as [Hh Hl].
  destruct (doctype_nodes doc) as [|d [|d' ds]]; cbn in Hone; [| |lia].
  - destruct (doctypes doc) as [|v vs]; [done|]. cbn in Hl. lia.
  - destruct (doctypes doc) as [|v [|v' vs]]; cbn in Hh, Hl; [done| |lia].
    injection Hh as ->. cbn [last default head].
    apply classify_rules.
Qed.

Lemma html_version_from_first_doctype_witness :
  (length (doctype_nodes xhtml_strict_page) <= 1)%nat /\
  first_doctype xhtml_strict_page
  = Some (Sample.doctype "-//W3C//DTD XHTML 1.0 Strict//EN") /\
  HtmlVersion.getHTMLVersion xhtml_strict_page = "XHTML 1.0" /\
  (length (doctype_nodes Sample.links_page) <= 1)%nat /\
  first_doctype Sample.links_page = None /\
  HtmlVersion.getHTMLVersion Sample.links_page = "HTML5".
Proof.
  split; [vm_compute; lia|]. split; [by vm_compute|].
  split.
  - rewrite (html_version_from_first_doctype xhtml_strict_page);
      [by vm_compute|vm_compute; lia].
  - split; [vm_compute; lia|]. split; [by vm_compute|].
    rewrite (html_version_from_first_doctype Sample.links_page);
      [by vm_compute|vm_compute; lia].
Defined.

(** ** The link check *)

Section LinkCheck.
Context `{P : Platform}.

Lemma probe_failed_range (resp : option Response) :
  probe_failed resp = answer_broken resp.
Proof.
  destruct resp as [r|]; [|done]. unfold probe_failed, answer_broken.
  destruct (bool_decide_reflect (400 <= StatusCode r <= 599));
    destruct (Z.leb_spec 400 (StatusCode r));
    destruct (Z.leb_spec (StatusCode r) 599); cbn; try done; lia.
Qed.

Lemma probe_each_app base l1 l2 s :
  probe_each base (l1 ++ l2) s = probe_each base l2 (probe_each base l1 s).
Proof.
  revert s. induction l1 as [|v l1 IH]; intros s; cbn [probe_each app];
    [done|].
  destruct (url_Parse v); [|done].
  destruct (client_Get _ _ _) as [resp net]. apply IH.
Qed.

Lemma href_loop_probe_each baseURL base attrs s :
  url_Parse baseURL = Some base ->
  href_loop baseURL attrs s
  = probe_each base (map Val (List.filter is_href attrs)) s.
Proof.
  intros Hb. revert s.
  induction attrs as [|attr rest IH]; intros s; [done|].
  cbn [href_loop List.filter]. unfold is_href at 1.
  destruct (String.eqb _ _); [|apply IH].
  cbn [map probe_each]. destruct (url_Parse (Val attr)); [|apply IH].
  rewrite Hb. destruct (client_Get _ _ _) as [resp net].
  rewrite probe_failed_range. apply IH.
Qed.

Lemma check_f_probe_each baseURL base n s :
  url_Parse baseURL = Some base ->
  check_f baseURL n s = probe_each base (anchor_hrefs n) s.
Proof.
  intros Hb. revert s.
  induction n as [ty data attrs kids IH] using Node_ind'.
  intros s. cbn [check_f]. unfold anchor_hrefs.
  rewrite collect_node, probe_each_app.
  change (flat_map (collect own_hrefs) kids)
    with (flat_map anchor_hrefs kids).
  assert ((if bool_decide (ty = ElementNode) && String.eqb data "a"
           then href_loop baseURL attrs s else s)
          = probe_each base (own_hrefs (MkNode ty data attrs kids)) s)
    as ->.
  { unfold own_hrefs, is_element, href_values. cbn [Type_ Data Attr].
    destruct (_ && _); [by apply href_loop_probe_each|done]. }
  generalize (probe_each base (own_hrefs (MkNode ty data attrs kids)) s).
  induction IH as [|c kids Hc _ IHk]; intros s2; [done|].
  cbn [fold_left flat_map]. rewrite probe_each_app, IHk. f_equal.
  apply Hc.
Qed.

(** One request per value that parses, in order, each value as often as
    it occurs. *)
Lemma probe_each_requests base hrefs s :
  requests (snd (probe_each base hrefs s))
  = requests (snd s) ++ probe_targets base hrefs.
Proof.
  revert s. induction hrefs as [|v rest IH]; intros s;
    cbn [probe_each probe_targets flat_map].
  - by rewrite app_nil_r.
  - fold (probe_targets base rest). destruct (url_Parse v); [|apply IH].
    unfold client_Get. destruct (http_Get _ _ _) as [resp w].
    rewrite IH. destruct (answer_broken resp); cbn; by rewrite <- app_assoc.
Qed.

(** The requests are the targets, each with its answer. *)
Lemma probe_answers_targets base hrefs net :
  map fst (probe_answers base hrefs net) = probe_targets base hrefs.
Proof.
  revert net. induction hrefs as [|v rest IH]; intros net;
    cbn [probe_answers probe_targets flat_map]; [done|].
  fold (probe_targets base rest). destruct (url_Parse v); [|apply IH].
  destruct (client_Get _ _ _) as [resp net']. cbn. by rewrite IH.
Qed.

(** What is recorded: the targets whose answer is a failure or a status
    from 400 to 599, one entry per such request, in the order of the
    requests. *)
Lemma probe_each_links base hrefs s :
  fst (probe_each base hrefs s)
  = fst s ++ map fst (List.filter (fun tr => answer_broken (snd tr))
                        (probe_answers base hrefs (snd s))).
Proof.
  revert s. induction hrefs as [|v rest IH]; intros s;
    cbn [probe_each probe_answers].
  - by rewrite app_nil_r.
  - destruct (url_Parse v) as [link|]; [|apply IH].
    destruct (client_Get _ _ _) as [resp net].
    cbn [List.filter snd]. rewrite IH.
    destruct (answer_broken resp); cbn; [|done].
    by rewrite <- app_assoc.
Qed.

End LinkCheck.

(** C3: with the base URL of the page parsed, the link check does to the
    [href] values of the anchors, in traversal order, what its
    description says.  A value that does not parse is skipped without a
    request; every other value is resolved against the base and requested
    once with a GET, a value that occurs again being requested again; a
    target is recorded exactly when its own request fails or is answered
    with a status from 400 to 599, and the recorded targets are in the
    order of the requests. *)
Theorem link_check_probes_every_href `{P : Platform}
    (doc : Node) (baseURL : string) (base : ParsedURL) (net : Net) :
  url_Parse baseURL = Some base ->
  let out := checkInaccessibleLinks doc baseURL net in
  let answers := probe_answers base (anchor_hrefs doc) net in
  out = probe_each base (anchor_hrefs doc) ([], net) /\
  requests (snd out) = requests net ++ probe_targets base (anchor_hrefs doc) /\
  map fst answers = probe_targets base (anchor_hrefs doc) /\
  fst out = map fst (List.filter (fun tr => answer_broken (snd tr)) answers).
Proof.
  intros Hb out answers. subst out answers. unfold checkInaccessibleLinks.
  rewrite (check_f_probe_each baseURL base) by done.
  split; [done|]. split; [apply probe_each_requests|].
  split; [apply probe_answers_targets|].
  by rewrite probe_each_links.
Qed.

Lemma link_check_probes_every_href_witness :
  url_Parse Sample.base_url = Some Sample.base_url /\
  anchor_hrefs Sample.probe_page
  = ["/ok"; "http://dead.test/"; ":bad"; "/missing"; "http://dead.test/"] /\
  let out := checkInaccessibleLinks Sample.probe_page Sample.base_url
               Sample.net0 in
  let answers := probe_answers (P := Sample.sample_platform) Sample.base_url
                   (anchor_hrefs Sample.probe_page) Sample.net0 in
  out = probe_each (P := Sample.sample_platform) Sample.base_url
          (anchor_hrefs Sample.probe_page) ([], Sample.net0) /\
  requests (snd out)
  = requests Sample.net0
    ++ probe_targets (P := Sample.sample_platform) Sample.base_url
         (anchor_hrefs Sample.probe_page) /\
  map fst answers
  = probe_targets (P := Sample.sample_platform) Sample.base_url
      (anchor_hrefs Sample.probe_page) /\
  fst out = map fst (List.filter (fun tr => answer_broken (snd tr)) answers).
Proof.
  split; [by vm_compute|]. split; [by vm_compute|].
  apply (link_check_probes_every_href (P := Sample.sample_platform)
           Sample.probe_page Sample.base_url Sample.base_url Sample.net0).
  by vm_compute.
Defined.

Example link_check_sample :
  checkInaccessibleLinks Sample.probe_page Sample.base_url Sample.net0
  = (["http://dead.test/"; "https://example.com/missing"; "http://dead.test/"],
     mkNet ["https://example.com/ok"; "http://dead.test/";
            "https://example.com/missing"; "http://dead.test/"] 4%nat).
Proof. by vm_compute. Qed.

(** ** analyzeURL *)

Section Analyze.
Context `{P : Platform}.

(** A result of [analyzeURL] is the walk of the parsed page with the
    version and the links filled in. *)
Lemma analyzeURL_inr urlStr net r net' :
  analyzeURL urlStr net = (inr r, net') ->
  exists resp doc net1,
    client_Get 30 urlStr net = (Some resp, net1) /\
    html_Parse (Body resp) = Some doc /\
    r = set_links (fst (checkInaccessibleLinks doc urlStr net1))
          (set_HTMLVersion (HtmlVersion.getHTMLVersion doc)
             (Walker.f doc (new_Analysis urlStr))) /\
    net' = snd (checkInaccessibleLinks doc urlStr net1).
Proof.
  unfold analyzeURL. intros H.
  destruct (client_Get 30 urlStr net) as [[resp|] net1]; [|done].
  destruct (html_Parse (Body resp)) as [doc|] eqn:Hdoc; [|done].
  exists resp, doc, net1. cbn [URL set_HTMLVersion] in H.
  rewrite WalkFields.f_URL in H. cbn [URL new_Analysis] in H.
  destruct (checkInaccessibleLinks doc urlStr net1) as [links net2].
  inversion H. by subst.
Qed.

(** The fields the walk computes reach the result unchanged. *)
Lemma analyzeURL_walk_fields urlStr net r net' :
  analyzeURL urlStr net = (inr r, net') ->
  exists resp doc net1,
    client_Get 30 urlStr net = (Some resp, net1) /\
    html_Parse (Body resp) = Some doc /\
    let w := Walker.f doc (new_Analysis urlStr) in
    InternalLinks r = InternalLinks w /\
    ExternalLinks r = ExternalLinks w /\
    Title r = Title w /\
    HasLoginForm r = HasLoginForm w /\
    HTMLVersion r = HtmlVersion.getHTMLVersion doc /\
    BrokenLinks r = fst (checkInaccessibleLinks doc urlStr net1).
Proof.
  intros (resp & doc & net1 & Hg & Hp & -> & _)%analyzeURL_inr.
  by exists resp, doc, net1.
Qed.

End Analyze.

(** C2: in every result that [analyzeURL] returns, the count of
    inaccessible links is the length of the list of broken links. *)
Theorem inaccessible_links_is_length_of_broken_links `{P : Platform}
    (urlStr : string) (net net' : Net) (r : Analysis) :
  analyzeURL urlStr net = (inr r, net') ->
  len (BrokenLinks r) = InaccessibleLinks r.
Proof.
  intros H. apply analyzeURL_inr in H as (resp & doc & net1 & _ & _ & -> & _).
  reflexivity.
Qed.

Lemma inaccessible_links_is_length_of_broken_links_witness :
  analyzeURL Sample.base_url Sample.net0
  = (inr Sample.sample_analysis, snd Sample.sample_run) /\
  len (BrokenLinks Sample.sample_analysis)
  = InaccessibleLinks Sample.sample_analysis.
Proof.
  split; [by vm_compute|].
  apply (inaccessible_links_is_length_of_broken_links
           (P := Sample.sample_platform) Sample.base_url Sample.net0
           (snd Sample.sample_run)).
  by vm_compute.
Defined.

(** ** The job store *)

Section StoreFacts.
Import Store Jobs.

Lemma alter_present {A} (g : A -> A) (m : gmap Z A) (i : Z) (x : A) :
  m !! i = Some x -> alter g i m = <[i := g x]> m.
Proof.
  intros Hx. apply map_eq. intros j.
  destruct (decide (i = j)) as [->|Hne].
  - by rewrite lookup_alter_eq, lookup_insert_eq, Hx.
  - by rewrite lookup_alter_ne, lookup_insert_ne.
Qed.

Lemma insert_links_eq fl id k links tx r :
  analyses tx !! id = Some r ->
  insert_links fl id k links tx
  = if existsb (fail_insert fl) (seq k (length links)) then None
    else Some (mkDB (analyses tx)
                 (broken_links tx ++ map (mkLinkRow id) links)
                 (auto_increment tx)).
Proof.
  intros Hr. revert k tx Hr.
  induction links as [|l rest IH]; intros k tx Hr; cbn.
  - rewrite app_nil_r. by destruct tx.
  - destruct (fail_insert fl k); [done|]. cbn.
    unfold insert_broken_link. rewrite Hr.
    rewrite (IH (S k) (mkDB (analyses tx)
                         (broken_links tx ++ [mkLinkRow id l])
                         (auto_increment tx)) Hr). cbn.
    destruct (existsb _ _); [done|]. by rewrite <- app_assoc.
Qed.

Lemma commit_analysis_eq fl id a db r :
  analyses db !! id = Some r ->
  commit_analysis fl id a db
  = if commit_fails fl a then db else committed id a r db.
Proof.
  intros Hr. unfold commit_analysis, commit_fails, committed.
  destruct (fail_begin fl); [done|].
  destruct (fail_update fl); [done|]. cbn [orb].
  rewrite (insert_links_eq fl id 0 (BrokenLinks a) _ (set_result a "done" r)).
  - destruct (existsb _ _); [done|]. cbn [orb].
    destruct (fail_commit fl); [done|]. cbn.
    by rewrite (alter_present _ _ _ r).
  - cbn. by rewrite lookup_alter_eq, Hr.
Qed.

Lemma select_links_app id db ls :
  select_links id (mkDB (analyses db) (broken_links db ++ map (mkLinkRow id) ls)
                     (auto_increment db))
  = select_links id db ++ ls.
Proof.
  unfold select_links. cbn. rewrite List.filter_app, map_app. f_equal.
  induction ls as [|l ls IH]; [done|].
  cbn. rewrite Z.eqb_refl. cbn. by rewrite IH.
Qed.

(** A commit that goes through appends the new links to those the job
    already has. *)
Lemma committed_links id a r db :
  select_links id (committed id a r db)
  = select_links id db ++ BrokenLinks a.
Proof. apply (select_links_app id db). Qed.

Lemma committed_row id a r db :
  analyses (committed id a r db) !! id = Some (set_result a "done" r).
Proof. unfold committed. cbn. apply lookup_insert_eq. Qed.

End StoreFacts.

(** C5: the commit of a result is all or nothing.  For a job whose row
    exists, whatever statements fail: when any statement from [db.Begin()]
    to [tx.Commit()] fails the store is exactly as before the attempt,
    with the result columns, the status and the link rows of the job
    untouched; when none fails the row of the job holds, column by column,
    the version, the title, the six heading counts, the three link counts
    and the login flag of the result together with the status [done], its
    URL as before, and every broken link has its row after the link rows
    already there.  No other store can come out of it. *)
Theorem result_commit_is_all_or_nothing
    (fl : Jobs.Faults) (id : Z) (a : Analysis) (db : Store.DB) (r : Store.Row) :
  Store.analyses db !! id = Some r ->
  let db' := Jobs.commit_analysis fl id a db in
  let row' :=
    Store.mkRow (Store.url r) (Some (HTMLVersion a)) (Some (Title a))
      (H1Count a) (H2Count a) (H3Count a) (H4Count a) (H5Count a) (H6Count a)
      (InternalLinks a) (ExternalLinks a) (InaccessibleLinks a)
      (Some (HasLoginForm a)) "done" in
  let all :=
    Store.mkDB (<[id := row']> (Store.analyses db))
      (Store.broken_links db ++ map (Store.mkLinkRow id) (BrokenLinks a))
      (Store.auto_increment db) in
  db' = (if Jobs.commit_fails fl a then db else all) /\
  (db' = db \/
   (Store.analyses db' !! id = Some row' /\
    Store.select_links id db' = Store.select_links id db ++ BrokenLinks a /\
    Jobs.getAnalysis id db'
    = Some (mkAnalysis id (Store.url r) (HTMLVersion a) (Title a)
              (H1Count a) (H2Count a) (H3Count a) (H4Count a) (H5Count a)
              (H6Count a) (InternalLinks a) (ExternalLinks a)
              (InaccessibleLinks a)
              (Store.select_links id db ++ BrokenLinks a)
              (HasLoginForm a) "done"))).
Proof.
  intros Hr db' row' all. subst db' row' all.
  rewrite (commit_analysis_eq fl id a db r Hr).
  split; [done|]. destruct (Jobs.commit_fails fl a); [by left|right].
  pose proof (committed_row id a r db) as Hrow.
  pose proof (committed_links id a r db) as Hlinks.
  split; [exact Hrow|]. split; [exact Hlinks|].
  unfold Jobs.getAnalysis. rewrite Hrow. cbn.
  unfold Jobs.getAnalyses_row. by rewrite Hlinks.
Qed.

Lemma result_commit_is_all_or_nothing_witness :
  let db := Store.update_status "running" 1 Sample.queued_db in
  let r := Store.mkRow Sample.base_url None None 0 0 0 0 0 0 0 0 0 None
             "running" in
  let a := Sample.sample_analysis in
  Store.analyses db !! 1 = Some r /\
  Jobs.commit_fails Sample.third_insert_fails a = true /\
  Jobs.commit_analysis Sample.third_insert_fails 1 a db = db /\
  Jobs.commit_fails Jobs.no_faults a = false /\
  Store.analyses (Jobs.commit_analysis Jobs.no_faults 1 a db) !! 1
  = Some (Store.mkRow Sample.base_url (Some "HTML5") (Some "Example")
            1 0 0 0 0 0 3 2 3 (Some false) "done") /\
  Store.select_links 1 (Jobs.commit_analysis Jobs.no_faults 1 a db)
  = ["http://dead.test/"; "https://example.com/missing"; "http://dead.test/"].
Proof.
  intros db r a.
  assert (Store.analyses db !! 1 = Some r) as Hr by (by vm_compute).
  split; [done|]. split; [by vm_compute|].
  split.
  - destruct (result_commit_is_all_or_nothing
                Sample.third_insert_fails 1 a db r Hr) as [-> _].
    by vm_compute.
  - split; [by vm_compute|].
    destruct (result_commit_is_all_or_nothing Jobs.no_faults 1 a db r Hr)
      as [-> _].
    split; by vm_compute.
Defined.

(** ** The worker and the executions *)

Section WorkerFacts.
Context `{P : Platform}.
Import Store Jobs.

(** A poll starts executions for queued jobs only, each at its first
    statement. *)
Lemma poll_starts_only_queued (query_fails : bool) (scan_fails : Z -> bool)
    (db : DB) (e : Exec) :
  e ∈ startWorker_poll query_fails scan_fails db ->
  select_status (ex_id e) db = Some "queued" /\ ex_pc e = AtUpdateRunning.
Proof.
  unfold startWorker_poll, select_by_status, select_status.
  destruct query_fails; [by intros ?%elem_of_nil|].
  intros (j & -> & Hj)%list_elem_of_fmap.
  apply list_elem_of_In, filter_In in Hj as [Hj _].
  apply list_elem_of_In, list_elem_of_fmap in Hj as (kr & -> & Hkr).
  apply list_elem_of_In, filter_In in Hkr as [Hin Hst].
  apply list_elem_of_In in Hin. destruct kr as [i r].
  apply elem_of_map_to_list in Hin. cbn in *.
  rewrite Hin. cbn. by apply String.eqb_eq in Hst as ->.
Qed.

(** A stopped job is not started by a poll. *)
Lemma stopped_job_is_not_polled (query_fails : bool) (scan_fails : Z -> bool)
    (db : DB) (id : Z) :
  select_status id db = Some "stopped" ->
  forall e, e ∈ startWorker_poll query_fails scan_fails db -> ex_id e ≠ id.
Proof.
  intros Hs e [Hq _]%poll_starts_only_queued He.
  rewrite He in Hq. congruence.
Qed.

Lemma status_after_update st id db r :
  analyses db !! id = Some r ->
  select_status id (update_status st id db) = Some st.
Proof.
  intros Hr. unfold select_status, update_status. cbn.
  by rewrite lookup_alter_eq, Hr.
Qed.

(** A stop that arrives after the execution has written [running] and
    before it reads the status back: the execution returns there, the
    analyzer is not called and the job stays [stopped]. *)
Lemma stop_between_update_and_check
    (fl : Faults) (id : Z) (u : string) (db : DB) (net : Net) (r : Row) :
  analyses db !! id = Some r ->
  fail_select fl = false ->
  let db1 := stopAnalysisHandler id db in
  exec_step fl (mkExec id u AtStoppedCheck) db1 net
  = (mkExec id u Returned, db1, net) /\
  select_status id db1 = Some "stopped".
Proof.
  intros Hr Hf db1. subst db1. unfold stopAnalysisHandler, exec_step.
  cbn [ex_pc ex_id ex_url]. rewrite Hf.
  by rewrite (status_after_update "stopped" id db r Hr).
Qed.

(** A re-run request changes the status only: the earlier result and
    its links stay in the store. *)
Lemma rerun_keeps_result (id : Z) (db : DB) (r : Row) :
  analyses db !! id = Some r ->
  analyses (rerunHandler id db) !! id = Some (set_status "queued" r) /\
  select_links id (rerunHandler id db) = select_links id db.
Proof.
  intros Hr. unfold rerunHandler, update_status. cbn.
  by rewrite lookup_alter_eq, Hr.
Qed.

Lemma run_cons (s : System) (ev : Event) (evs : list Event) :
  run s (ev :: evs) = run (sys_step s ev) evs.
Proof. reflexivity. Qed.

Lemma advance_alone (fl : Faults) (e : Exec) (db : DB) (net : Net) :
  sys_step (mkSystem db net [e]) (Advance 0 fl)
  = let '(e', db', net') := exec_step fl e db net in mkSystem db' net' [e'].
Proof. reflexivity. Qed.

Lemma step_update_running fl id u db net :
  fail_running fl = false ->
  exec_step fl (mkExec id u AtUpdateRunning) db net
  = (mkExec id u AtStoppedCheck, update_status "running" id db, net).
Proof. intros H. unfold exec_step. cbn. by rewrite H. Qed.

Lemma step_check_running fl id u db net :
  select_status id db = Some "running" ->
  exec_step fl (mkExec id u AtStoppedCheck) db net
  = (mkExec id u AtAnalyze, db, net).
Proof.
  intros H. unfold exec_step. cbn [ex_pc ex_id ex_url]. rewrite H.
  by destruct (fail_select fl).
Qed.

Lemma step_analyze_ok fl id u db net a net' :
  analyzeURL u net = (inr a, net') ->
  exec_step fl (mkExec id u AtAnalyze) db net
  = (mkExec id u (AtCommit a), db, net').
Proof. intros H. unfold exec_step. cbn [ex_pc ex_id ex_url]. by rewrite H. Qed.

(** An undisturbed execution whose analysis succeeds is its first update
    followed by the commit of the result. *)
Lemma processAnalysis_commits
    (fl : Faults) (id : Z) (u : string) (db : DB) (net net' : Net)
    (r : Row) (a : Analysis) :
  analyses db !! id = Some r ->
  fail_running fl = false ->
  analyzeURL u net = (inr a, net') ->
  processAnalysis fl id u db net
  = (commit_analysis fl id a (update_status "running" id db), net').
Proof.
  intros Hr Hrun Ha. unfold processAnalysis. cbn [replicate].
  rewrite run_cons, advance_alone, step_update_running by done.
  rewrite run_cons, advance_alone, step_check_running
    by (by apply (status_after_update "running" id db r)).
  rewrite run_cons, advance_alone, (step_analyze_ok _ _ _ _ _ a net') by done.
  by rewrite run_cons, advance_alone.
Qed.

(** When that commit fails the job is left [running]. *)
Lemma failed_commit_leaves_running
    (fl : Faults) (id : Z) (u : string) (db : DB) (net net' : Net)
    (r : Row) (a : Analysis) :
  analyses db !! id = Some r ->
  fail_running fl = false ->
  analyzeURL u net = (inr a, net') ->
  commit_fails fl a = true ->
  select_status id (fst (processAnalysis fl id u db net)) = Some "running".
Proof.
  intros Hr Hrun Ha Hf.
  rewrite (processAnalysis_commits fl id u db net net' r a) by done.
  cbn [fst].
  rewrite (commit_analysis_eq fl id a _ (set_status "running" r)), Hf.
  - by apply (status_after_update "running" id db r).
  - unfold update_status. cbn. by rewrite lookup_alter_eq, Hr.
Qed.

(** A stop that arrives before the first statement of the execution: the
    update to [running] overwrites it, the check passes and the execution
    goes on to the analyzer. *)
Lemma stop_before_update_is_lost
    (fl : Faults) (id : Z) (u : string) (db : DB) (net : Net) (r : Row) :
  analyses db !! id = Some r ->
  fail_running fl = false ->
  let db1 := stopAnalysisHandler id db in
  let '(e1, db2, net2) := exec_step fl (mkExec id u AtUpdateRunning) db1 net in
  select_status id db1 = Some "stopped" /\
  select_status id db2 = Some "running" /\
  exec_step fl e1 db2 net2 = (mkExec id u AtAnalyze, db2, net).
Proof.
  intros Hr Hrun db1. subst db1. unfold stopAnalysisHandler.
  assert (analyses (update_status "stopped" id db) !! id
          = Some (set_status "stopped" r)) as Hr1.
  { unfold update_status. cbn. by rewrite lookup_alter_eq, Hr. }
  unfold exec_step at 1. cbn [ex_pc ex_id ex_url]. rewrite Hrun.
  split; [by apply (status_after_update "stopped" id db r)|].
  split;
    [by apply (status_after_update "running" id _ (set_status "stopped" r))|].
  apply step_check_running.
  by apply (status_after_update "running" id _ (set_status "stopped" r)).
Qed.

End WorkerFacts.

(** C4: a stop request that arrives after the poll has started the
    execution and before the execution's first statement is lost.  The
    job is [stopped] when the execution starts; its unconditional
    [UPDATE ... SET status = 'running'] overwrites that, the check that
    follows reads [running], the analyzer is called (five requests are
    sent) and the job ends as [done]. *)
Theorem stop_before_first_statement_is_overwritten :
  let s0 := Jobs.mkSystem Sample.queued_db Sample.net0 [] in
  let s1 := Jobs.run s0 [Jobs.poll_ok; Jobs.Incoming (Jobs.ReqStop 1)] in
  let s2 := Jobs.run s1 (replicate 4 (Jobs.Advance 0 Jobs.no_faults)) in
  Store.select_status 1 (Jobs.sys_db s1) = Some "stopped" /\
  Jobs.sys_execs s1 = [Jobs.mkExec 1 Sample.base_url Jobs.AtUpdateRunning] /\
  Jobs.sys_execs s2 = [Jobs.mkExec 1 Sample.base_url Jobs.Returned] /\
  length (requests (Jobs.sys_net s2)) = 5%nat /\
  Store.select_status 1 (Jobs.sys_db s2) = Some "done".
Proof. by vm_compute. Qed.

(** The same stop one statement later is seen. *)
Example stop_after_first_statement_is_seen :
  let s0 := Jobs.mkSystem Sample.queued_db Sample.net0 [] in
  let s := Jobs.run s0 [Jobs.poll_ok; Jobs.Advance 0 Jobs.no_faults;
                        Jobs.Incoming (Jobs.ReqStop 1);
                        Jobs.Advance 0 Jobs.no_faults] in
  Jobs.sys_execs s = [Jobs.mkExec 1 Sample.base_url Jobs.Returned] /\
  requests (Jobs.sys_net s) = [] /\
  Store.select_status 1 (Jobs.sys_db s) = Some "stopped".
Proof. by vm_compute. Qed.

(** C6: the commit of a re-run inserts the new link rows and deletes
    none.  Job 1 is [done] with the broken link [/old]; it is run again
    and the new run finds three broken links, none of them [/old].
    After the commit the job reports [inaccessible_links = 3] and four
    broken links, the first of them the link of the earlier run. *)
Theorem rerun_keeps_links_of_earlier_run :
  let s0 := Jobs.mkSystem Sample.done_db Sample.net0 [] in
  let s := Jobs.run s0 ([Jobs.Incoming (Jobs.ReqRerun 1); Jobs.poll_ok]
                        ++ replicate 4 (Jobs.Advance 0 Jobs.no_faults)) in
  BrokenLinks <$> Jobs.getAnalysis 1 (Jobs.sys_db s0)
  = Some ["https://example.com/old"] /\
  BrokenLinks Sample.sample_analysis
  = ["http://dead.test/"; "https://example.com/missing"; "http://dead.test/"] /\
  Status <$> Jobs.getAnalysis 1 (Jobs.sys_db s) = Some "done" /\
  InaccessibleLinks <$> Jobs.getAnalysis 1 (Jobs.sys_db s) = Some 3 /\
  BrokenLinks <$> Jobs.getAnalysis 1 (Jobs.sys_db s)
  = Some ["https://example.com/old"; "http://dead.test/";
          "https://example.com/missing"; "http://dead.test/"].
Proof. by vm_compute. Qed.

(** * Further properties *)

(** ** The walk: headings and the login flag *)

Section WalkMore.
Import Walker WalkerFacts WalkFields.

Lemma anchor_loop_HCount k attrs a :
  HCount k (anchor_loop attrs a) = HCount k a.
Proof.
  revert a. induction attrs as [|attr rest IH]; intros a; cbn; [done|].
  destruct (String.eqb _ _); [destruct (HasPrefix _ _)|]; rewrite IH;
    by destruct k as [|[|[|[|[|[|[|]]]]]]].
Qed.

Lemma visit_HCount k n a :
  (1 <= k <= 6)%nat ->
  HCount k (visit n a)
  = incr_times (if is_element (heading_tag k) n then 1 else 0) (HCount k a).
Proof.
  intros Hk. unfold visit, is_element.
  destruct (bool_decide _); cbn [andb]; [|done].
  destruct k as [|[|[|[|[|[|[|]]]]]]]; try lia; cbn [heading_tag];
    tag_cases n; try done;
    try (by destruct (FirstChild n));
    try apply anchor_loop_HCount;
    by form_case n.
Qed.

Lemma fold_incr_nodes (p : Node -> bool) kids x :
  fold_left (fun b c => incr_times (length (List.filter p (preorder c))) b)
    kids x
  = incr_times (length (List.filter p (flat_map preorder kids))) x.
Proof.
  revert x. induction kids as [|c kids IH]; intros x;
    cbn [fold_left flat_map]; [done|].
  by rewrite IH, List.filter_app, length_app, incr_times_add.
Qed.

Lemma f_HCount k n a :
  (1 <= k <= 6)%nat ->
  HCount k (f n a)
  = incr_times (length (elements_named (heading_tag k) n)) (HCount k a).
Proof.
  intros Hk. revert a.
  induction n as [ty data attrs kids IH] using Node_ind'.
  intros a. cbn [f].
  rewrite (fold_children_field f (HCount k)
             (fun c b => incr_times
                           (length (elements_named (heading_tag k) c)) b)
             kids IH).
  rewrite visit_HCount by done. unfold elements_named.
  rewrite fold_incr_nodes. cbn [preorder List.filter].
  destruct (is_element _ _); cbn [length]; [|done].
  change (incr_times 1 (HCount k a)) with (incr (HCount k a)).
  by rewrite incr_times_S.
Qed.

Lemma length_filter_le {A} (p : A -> bool) (l : list A) :
  (length (List.filter p l) <= length l)%nat.
Proof.
  induction l as [|x l IH]; cbn; [done|]. destruct (p x); cbn; lia.
Qed.

End WalkMore.

(** Each of the six heading counters is the number of elements with its
    tag anywhere in the tree, nested or not.  (The bound keeps the [int]
    counters from wrapping; every tree in memory meets it.) *)
Theorem heading_counters_count_elements
    (doc : Node) (urlStr : string) (k : nat) :
  len (preorder doc) < 2 ^ 63 ->
  (1 <= k <= 6)%nat ->
  HCount k (Walker.f doc (new_Analysis urlStr))
  = len (elements_named (heading_tag k) doc).
Proof.
  intros Hb Hk. rewrite f_HCount by done.
  pose proof (length_filter_le (is_element (heading_tag k)) (preorder doc)).
  assert (HCount k (new_Analysis urlStr) = 0) as H0
    by (by destruct k as [|[|[|[|[|[|[|]]]]]]]).
  unfold elements_named, len in *.
  rewrite incr_times_exact; rewrite H0; lia.
Qed.

Lemma heading_counters_count_elements_witness :
  len (preorder Sample.probe_page) < 2 ^ 63 /\
  (1 <= 1 <= 6)%nat /\
  HCount 1 (Walker.f Sample.probe_page (new_Analysis Sample.base_url)) = 1.
Proof.
  split; [by vm_compute|]. split; [lia|].
  rewrite (heading_counters_count_elements Sample.probe_page Sample.base_url 1);
    [by vm_compute|by vm_compute|lia].
Defined.

(** The login flag after the walk says exactly this: some [form] element
    has an [action] containing [login] or [signin], or some [form]
    element has an [input] with [type="password"] at or below it.  A
    matching [action] is enough without any password input. *)
Theorem login_flag_characterised (doc : Node) (urlStr : string) :
  HasLoginForm (Walker.f doc (new_Analysis urlStr))
  = form_action_login doc || form_password_login doc.
Proof. by rewrite WalkFields.f_login. Qed.

(** ** The link check and analyzeURL: edges and calls *)

Section LinkCheckMore.
Context `{P : Platform}.

Lemma href_loop_no_base baseURL attrs s :
  url_Parse baseURL = None -> href_loop baseURL attrs s = s.
Proof.
  intros Hb. induction attrs as [|attr rest IH]; [done|].
  cbn [href_loop]. destruct (String.eqb _ _); [|done].
  destruct (url_Parse (Val attr)); [|done]. by rewrite Hb.
Qed.

Lemma check_f_no_base baseURL n s :
  url_Parse baseURL = None -> check_f baseURL n s = s.
Proof.
  intros Hb. revert s. induction n as [ty data attrs kids IH] using Node_ind'.
  intros s. cbn [check_f].
  assert ((if bool_decide (ty = ElementNode) && String.eqb data "a"
           then href_loop baseURL attrs s else s) = s) as ->.
  { destruct (_ && _); [by apply href_loop_no_base|done]. }
  induction IH as [|c kids Hc _ IHk]; [done|].
  cbn [fold_left]. by rewrite Hc.
Qed.

Lemma probe_targets_length base hrefs :
  (length (probe_targets base hrefs) <= length hrefs)%nat.
Proof.
  induction hrefs as [|v rest IH]; cbn [probe_targets flat_map]; [done|].
  fold (probe_targets base rest). rewrite length_app.
  destruct (url_Parse v); cbn; lia.
Qed.

Lemma checked_links_bound doc baseURL net :
  (length (fst (checkInaccessibleLinks doc baseURL net))
   <= length (anchor_hrefs doc))%nat.
Proof.
  unfold checkInaccessibleLinks.
  destruct (url_Parse baseURL) as [base|] eqn:Hb.
  - rewrite (check_f_probe_each baseURL base) by done.
    rewrite probe_each_links. cbn [fst snd app]. rewrite length_map.
    etrans; [apply length_filter_le|].
    rewrite <- (length_map fst), probe_answers_targets.
    apply probe_targets_length.
  - rewrite check_f_no_base by done. cbn. lia.
Qed.

Lemma client_Get_requests timeout u net :
  requests (snd (client_Get timeout u net)) = requests net ++ [u].
Proof. unfold client_Get. by destruct (http_Get _ _ _). Qed.

End LinkCheckMore.

(** When the base URL does not parse, the link check sends no request and
    reports no link, whatever the page holds. *)
Theorem link_check_without_base `{P : Platform}
    (doc : Node) (baseURL : string) (net : Net) :
  url_Parse baseURL = None ->
  checkInaccessibleLinks doc baseURL net = ([], net).
Proof. intros Hb. unfold checkInaccessibleLinks. by apply check_f_no_base. Qed.

Lemma link_check_without_base_witness :
  url_Parse ":nowhere" = None /\
  checkInaccessibleLinks Sample.probe_page ":nowhere" Sample.net0
  = ([], Sample.net0).
Proof.
  split; [by vm_compute|].
  apply (link_check_without_base (P := Sample.sample_platform)).
  by vm_compute.
Defined.

(** The link check never reports more links than the anchors of the page
    carry [href] attributes, over any network and whether or not the base
    parses; so the count of inaccessible links cannot exceed the two link
    counters together. *)
Theorem broken_links_at_most_hrefs `{P : Platform}
    (doc : Node) (baseURL : string) (net : Net) :
  len (fst (checkInaccessibleLinks doc baseURL net)) <= len (anchor_hrefs doc).
Proof.
  pose proof (checked_links_bound doc baseURL net). unfold len. lia.
Qed.

(** When [analyzeURL] fails, by the fetch or by the parse, it has called
    [client.Get] once, for the page, and not for any link. *)
Theorem failed_analysis_calls_get_once `{P : Platform}
    (urlStr : string) (net net' : Net) (e : AnalyzeError) :
  analyzeURL urlStr net = (inl e, net') ->
  requests net' = requests net ++ [urlStr].
Proof.
  unfold analyzeURL. intros H.
  pose proof (client_Get_requests 30 urlStr net) as Hr.
  destruct (client_Get 30 urlStr net) as [[resp|] net1]; cbn in Hr.
  - destruct (html_Parse (Body resp)) as [doc|].
    + by destruct (checkInaccessibleLinks _ _ _).
    + by inversion H; subst.
  - by inversion H; subst.
Qed.

Lemma failed_analysis_calls_get_once_witness :
  analyzeURL "http://dead.test/" Sample.net0
  = (inl GetError, mkNet ["http://dead.test/"] 1%nat) /\
  analyzeURL "https://example.com/broken-page" Sample.net0
  = (inl ParseError, mkNet ["https://example.com/broken-page"] 1%nat) /\
  requests (mkNet ["https://example.com/broken-page"] 1%nat)
  = requests Sample.net0 ++ ["https://example.com/broken-page"].
Proof.
  split; [by vm_compute|]. split; [by vm_compute|].
  apply (failed_analysis_calls_get_once (P := Sample.sample_platform)
           "https://example.com/broken-page" Sample.net0 _ ParseError).
  by vm_compute.
Defined.

(** When [analyzeURL] succeeds, its calls of [client.Get] are the one for
    the page and then, for the page it parsed, one per [href] value of an
    anchor that parses, resolved against the page's URL, in traversal
    order, and no other. *)
Theorem analysis_get_calls `{P : Platform}
    (urlStr : string) (base : ParsedURL) (net net' : Net) (r : Analysis) :
  analyzeURL urlStr net = (inr r, net') ->
  url_Parse urlStr = Some base ->
  exists resp doc net1,
    client_Get 30 urlStr net = (Some resp, net1) /\
    html_Parse (Body resp) = Some doc /\
    requests net'
    = requests net ++ urlStr :: probe_targets base (anchor_hrefs doc).
Proof.
  intros (resp & doc & net1 & Hg & Hp & _ & ->)%analyzeURL_inr Hb.
  exists resp, doc, net1. split; [done|]. split; [done|].
  unfold checkInaccessibleLinks.
  rewrite (check_f_probe_each urlStr base) by done.
  rewrite probe_each_requests. cbn [snd].
  pose proof (client_Get_requests 30 urlStr net) as Hr.
  rewrite Hg in Hr. cbn in Hr. rewrite Hr. by rewrite <- app_assoc.
Qed.

Lemma analysis_get_calls_witness :
  analyzeURL Sample.base_url Sample.net0
  = (inr Sample.sample_analysis, snd Sample.sample_run) /\
  url_Parse Sample.base_url = Some Sample.base_url /\
  requests (snd Sample.sample_run)
  = ["https://example.com"; "https://example.com/ok"; "http://dead.test/";
     "https://example.com/missing"; "http://dead.test/"] /\
  exists resp doc net1,
    client_Get 30 Sample.base_url Sample.net0 = (Some resp, net1) /\
    html_Parse (Body resp) = Some doc /\
    requests (snd Sample.sample_run)
    = requests Sample.net0
      ++ Sample.base_url
         :: probe_targets (P := Sample.sample_platform) Sample.base_url
              (anchor_hrefs doc).
Proof.
  split; [by vm_compute|]. split; [by vm_compute|]. split; [by vm_compute|].
  apply (analysis_get_calls (P := Sample.sample_platform) Sample.base_url
           Sample.base_url Sample.net0 _ Sample.sample_analysis);
    by vm_compute.
Defined.

(** ** getHTMLVersion: letter case *)

Lemma lower_byte_idem (c : Ascii.ascii) :
  lower_byte (lower_byte c) = lower_byte c.
Proof. by destruct c as [[] [] [] [] [] [] [] []]. Qed.

Lemma ToLower_idem (s : string) : ToLower (ToLower s) = ToLower s.
Proof.
  induction s as [|c s IH]; [done|]. cbn. by rewrite lower_byte_idem, IH.
Qed.

Lemma ToLower_html (v : string) :
  ToLower v = "html" -> HtmlVersion.classify v = "HTML5".
Proof.
  intros H. unfold HtmlVersion.classify. rewrite H.
  by destruct (String.eqb v "html").
Qed.

(** The classification does not depend on the case of the ASCII letters
    of the doctype value: lowering the value first changes nothing.  The
    one case-sensitive test, for the exact text [html], never decides,
    since a value it rejects for its case falls through to the same
    answer. *)
Theorem classification_ignores_case (version : string) :
  HtmlVersion.classify (ToLower version) = HtmlVersion.classify version.
Proof.
  destruct (String.eqb_spec (ToLower version) "html") as [E|E].
  - rewrite (ToLower_html version E). apply ToLower_html.
    by rewrite ToLower_idem.
  - unfold HtmlVersion.classify. rewrite ToLower_idem.
    apply String.eqb_neq in E as E'. rewrite E'.
    destruct (String.eqb_spec version "html") as [->|_]; [|done].
    by vm_compute in E.
Qed.

(** ** authMiddleware *)

Section AuthFacts.
Import Auth.

Lemma Contains_byte_cons (c sep : Ascii.ascii) (s : string) :
  Contains (String c s) (String sep EmptyString)
  = Ascii.eqb c sep || Contains s (String sep EmptyString).
Proof.
  cbn [Contains HasPrefix]. destruct (Ascii.eqb c sep); [|done].
  by destruct s.
Qed.

Lemma Split_cons (s : string) (sep : Ascii.ascii) :
  exists piece pieces, Split s sep = piece :: pieces.
Proof.
  induction s as [|c s (p & ps & IH)]; cbn [Split]; [by eexists _, _|].
  destruct (Ascii.eqb c sep); [by eexists _, _|].
  rewrite IH. by eexists _, _.
Qed.

(** No separator: the text is the one piece. *)
Lemma Split_one (s a : string) (sep : Ascii.ascii) :
  Split s sep = [a]
  <-> s = a /\ Contains a (String sep EmptyString) = false.
Proof.
  revert a. induction s as [|c s IH]; intros a; cbn [Split].
  - split; [by intros [= <-]|by intros [<- _]].
  - destruct (Ascii.eqb c sep) eqn:E.
    + destruct (Split_cons s sep) as (p & ps & Hs). rewrite Hs.
      split; [done|]. intros [<- Hc].
      rewrite Contains_byte_cons, E in Hc. done.
    + destruct (Split_cons s sep) as (p & ps & Hs). rewrite Hs.
      split.
      * intros [= <- ->]. destruct (proj1 (IH p) Hs) as [-> Hc].
        split; [done|]. by rewrite Contains_byte_cons, E.
      * intros [<- Hc]. rewrite Contains_byte_cons, E in Hc.
        cbn [orb] in Hc.
        pose proof (proj2 (IH s) (conj eq_refl Hc)) as Hs'.
        rewrite Hs in Hs'. by inversion Hs'.
Qed.

(** One separator: the text is the first piece, the separator and the
    second piece, and neither piece holds a separator. *)
Lemma Split_two (s a b : string) (sep : Ascii.ascii) :
  Split s sep = [a; b]
  <-> s = a +:+ String sep b /\
      Contains a (String sep EmptyString) = false /\
      Contains b (String sep EmptyString) = false.
Proof.
  revert a. induction s as [|c s IH]; intros a; cbn [Split].
  - split; [done|]. intros [H _]. by destruct a.
  - destruct (Ascii.eqb c sep) eqn:E.
    + apply Ascii.eqb_eq in E as ->. split.
      * intros [= <- Hs]. apply Split_one in Hs as [-> Hb]. done.
      * intros (Hs & Ha & Hb). destruct a as [|c' a].
        -- change (String sep s = String sep b) in Hs.
           injection Hs as ->. f_equal. by apply Split_one.
        -- change (String sep s = String c' (a +:+ String sep b)) in Hs.
           injection Hs as <- _.
           rewrite Contains_byte_cons, Ascii.eqb_refl in Ha. done.
    + destruct (Split_cons s sep) as (p & ps & Hs). rewrite Hs. split.
      * intros [= <- ->]. apply IH in Hs as (-> & Hp & Hb).
        split; [done|]. split; [|done]. by rewrite Contains_byte_cons, E.
      * intros (Hsa & Ha & Hb). destruct a as [|c' a].
        -- change (String c s = String sep b) in Hsa.
           injection Hsa as -> _. by rewrite Ascii.eqb_refl in E.
        -- change (String c s = String c' (a +:+ String sep b)) in Hsa.
           injection Hsa as <- ->.
           rewrite Contains_byte_cons, E in Ha. cbn [orb] in Ha.
           pose proof (proj2 (IH a) (conj eq_refl (conj Ha Hb))) as Hs'.
           rewrite Hs in Hs'. by inversion Hs'.
Qed.

End AuthFacts.

Lemma auth_Next_inv (authHeader : string) :
  Auth.authMiddleware authHeader = Auth.Next ->
  exists token, Auth.Split authHeader Ascii.Space = ["Bearer"; token] /\
                token <> EmptyString.
Proof.
  unfold Auth.authMiddleware.
  destruct (String.eqb authHeader EmptyString); [done|].
  destruct (Auth.Split authHeader Ascii.Space)
    as [|scheme [|token [|x rest]]]; try done.
  destruct (String.eqb_spec scheme "Bearer") as [->|]; [|done].
  destruct (String.eqb_spec token EmptyString); [done|].
  intros _. by exists token.
Qed.

Lemma auth_no_token_inv (authHeader : string) :
  Auth.authMiddleware authHeader = Auth.Abort 401 "Token not found" ->
  Auth.Split authHeader Ascii.Space = ["Bearer"; EmptyString].
Proof.
  unfold Auth.authMiddleware.
  destruct (String.eqb authHeader EmptyString); [done|].
  destruct (Auth.Split authHeader Ascii.Space)
    as [|scheme [|token [|x rest]]]; try done.
  destruct (String.eqb_spec scheme "Bearer") as [->|]; [|done].
  by destruct (String.eqb_spec token EmptyString) as [->|].
Qed.

Lemma auth_bearer (token : string) :
  Contains token " " = false ->
  Auth.authMiddleware ("Bearer " +:+ token)
  = if String.eqb token EmptyString then Auth.Abort 401 "Token not found"
    else Auth.Next.
Proof.
  intros Hc. unfold Auth.authMiddleware.
  assert (Auth.Split ("Bearer " +:+ token) Ascii.Space = ["Bearer"; token])
    as -> by (by apply Split_two).
  done.
Qed.

(** A request passes the middleware exactly when its [Authorization]
    header is [Bearer], one space, and a token that is not empty and
    holds no space; a token with a space in it is turned away like a
    missing one.  Every refusal is a 401, and the refusal for a missing
    token is given to the header [Bearer ] alone. *)
Theorem auth_passes_iff_bearer_token (authHeader : string) :
  (Auth.authMiddleware authHeader = Auth.Next
   <-> exists token, authHeader = "Bearer " +:+ token /\
                     token <> EmptyString /\ Contains token " " = false) /\
  (Auth.authMiddleware authHeader = Auth.Abort 401 "Token not found"
   <-> authHeader = "Bearer ") /\
  (Auth.authMiddleware authHeader = Auth.Next \/
   exists msg, Auth.authMiddleware authHeader = Auth.Abort 401 msg).
Proof.
  split; [|split].
  - split.
    + intros (token & (-> & _ & Hc)%Split_two & Hne)%auth_Next_inv.
      by exists token.
    + intros (token & -> & Hne & Hc). rewrite auth_bearer by done.
      by destruct (String.eqb_spec token EmptyString).
  - split; [|by intros ->].
    by intros (-> & _)%auth_no_token_inv%Split_two.
  - unfold Auth.authMiddleware.
    destruct (String.eqb authHeader EmptyString); [by right; eexists|].
    destruct (Auth.Split authHeader Ascii.Space)
      as [|scheme [|token [|x rest]]]; try (by right; eexists).
    destruct (String.eqb scheme "Bearer"); [|by right; eexists].
    destruct (String.eqb token EmptyString); [by right; eexists|by left].
Qed.

(** The header the page builds from an API key with a space in it. *)
Example key_with_space_is_refused :
  Auth.authMiddleware (Auth.bearer "my key")
  = Auth.Abort 401 "Invalid authorization header" /\
  Auth.authMiddleware (Auth.bearer "test1234") = Auth.Next /\
  Auth.authMiddleware "bearer test1234"
  = Auth.Abort 401 "Invalid authorization header".
Proof. by vm_compute. Qed.

(** ** main: the connection loop *)

Section StartupFacts.
Import Startup.

Lemma connect_loop_all_fail outcome i left err sleeps :
  (forall j, (j < left)%nat -> outcome (i + j)%nat <> Connected) ->
  connect_loop outcome i left err sleeps
  = (if (left =? 0)%nat then err else true, (i + left)%nat,
     (sleeps + left)%nat).
Proof.
  revert i err sleeps. induction left as [|left IH]; intros i err sleeps H.
  - cbn. by rewrite !Nat.add_0_r.
  - cbn [connect_loop Nat.eqb].
    pose proof (H 0%nat ltac:(lia)) as H0. rewrite Nat.add_0_r in H0.
    assert (forall j, (j < left)%nat -> outcome (S i + j)%nat <> Connected)
      as H'.
    { intros j Hj. replace (S i + j)%nat with (i + S j)%nat by lia.
      apply H. lia. }
    destruct (outcome i); [| |done];
      rewrite (IH (S i) true (S sleeps) H');
      replace (S i + left)%nat with (i + S left)%nat by lia;
      replace (S sleeps + left)%nat with (sleeps + S left)%nat by lia;
      by destruct left.
Qed.

Lemma connect_loop_first_success outcome i left err sleeps k :
  (k < left)%nat ->
  outcome (i + k)%nat = Connected ->
  (forall j, (j < k)%nat -> outcome (i + j)%nat <> Connected) ->
  connect_loop outcome i left err sleeps
  = (false, S (i + k), (sleeps + k)%nat).
Proof.
  revert i left err sleeps.
  induction k as [|k IH]; intros i left err sleeps Hk Hc Hf.
  - destruct left as [|left]; [lia|]. cbn [connect_loop].
    rewrite !Nat.add_0_r. rewrite Nat.add_0_r in Hc. by rewrite Hc.
  - destruct left as [|left]; [lia|]. cbn [connect_loop].
    pose proof (Hf 0%nat ltac:(lia)) as H0. rewrite Nat.add_0_r in H0.
    assert (connect_loop outcome (S i) left true (S sleeps)
            = (false, S (S i + k), (S sleeps + k)%nat)) as Hrec.
    { apply IH; [lia| |].
      - by replace (S i + k)%nat with (i + S k)%nat by lia.
      - intros j Hj. replace (S i + j)%nat with (i + S j)%nat by lia.
        apply Hf. lia. }
    destruct (outcome i); [| |done]; rewrite Hrec;
      replace (S i + k)%nat with (i + S k)%nat by lia;
      by replace (S sleeps + k)%nat with (sleeps + S k)%nat by lia.
Qed.

Lemma connect_loop_err outcome i left err sleeps passes sleeps' :
  connect_loop outcome i left err sleeps = (true, passes, sleeps') ->
  forall j, (j < left)%nat -> outcome (i + j)%nat <> Connected.
Proof.
  revert i err sleeps. induction left as [|left IH]; intros i err sleeps H j Hj;
    [lia|].
  cbn [connect_loop] in H.
  destruct (outcome i) eqn:Ho; [| |done];
    (destruct j as [|j];
     [rewrite Nat.add_0_r; by rewrite Ho
     |replace (i + S j)%nat with (S i + j)%nat by lia;
      apply (IH _ _ _ H); lia]).
Qed.

End StartupFacts.

(** [main] gives up with [log.Fatal] exactly when each of the thirty
    passes fails, at [sql.Open] or at the ping; it does not look at a
    thirty-first. *)
Theorem startup_gives_up_iff_thirty_failures
    (outcome : nat -> Startup.Attempt) :
  Startup.connect outcome = None
  <-> forall i, (i < 30)%nat -> outcome i <> Startup.Connected.
Proof.
  split.
  - unfold Startup.connect. intros Hn i Hi.
    destruct (Startup.connect_loop outcome 0 30 false 0)
      as [[[] passes] sleeps] eqn:Hl; [|done].
    apply (connect_loop_err outcome 0 30 false 0 passes sleeps Hl i Hi).
  - intros H. unfold Startup.connect.
    by rewrite (connect_loop_all_fail outcome 0 30 false 0).
Qed.

(** [main] goes on at the first pass that connects: after [k] failed
    passes it has slept [k] times two seconds and made [k + 1] passes. *)
Theorem startup_connects_at_first_success
    (outcome : nat -> Startup.Attempt) (k : nat) :
  (k < 30)%nat ->
  outcome k = Startup.Connected ->
  (forall j, (j < k)%nat -> outcome j <> Startup.Connected) ->
  Startup.connect outcome = Some (S k, k).
Proof.
  intros Hk Hc Hf. unfold Startup.connect.
  by rewrite (connect_loop_first_success outcome 0 30 false 0 k).
Qed.

Lemma startup_connects_at_first_success_witness :
  let outcome := fun i => if (i <? 2)%nat then Startup.PingFails
                          else Startup.Connected in
  Startup.connect outcome = Some (3%nat, 2%nat).
Proof.
  intros outcome.
  apply (startup_connects_at_first_success outcome 2); [lia|done|].
  intros j Hj. unfold outcome.
  destruct (Nat.ltb_spec j 2); [done|lia].
Defined.

(** ** The store: what each statement leaves alone *)

Section StoreMore.
Import Store Jobs StoreInv.

Lemma alter_absent {A} (g : A -> A) (m : gmap Z A) (i : Z) :
  m !! i = None -> alter g i m = m.
Proof.
  intros Hn. apply map_eq. intros j.
  destruct (decide (i = j)) as [->|Hne].
  - by rewrite lookup_alter_eq, Hn.
  - by rewrite lookup_alter_ne.
Qed.

Lemma update_status_absent st id db :
  analyses db !! id = None -> update_status st id db = db.
Proof.
  intros Hn. unfold update_status. rewrite alter_absent by done.
  by destruct db.
Qed.

(** A commit for a job whose row is gone changes nothing: the update
    matches no row, and an insert of a link row is refused by the
    foreign key. *)
Lemma commit_absent fl id a db :
  analyses db !! id = None -> commit_analysis fl id a db = db.
Proof.
  intros Hn. unfold commit_analysis.
  destruct (fail_begin fl); [done|]. destruct (fail_update fl); [done|].
  unfold update_result. rewrite alter_absent by done.
  destruct (BrokenLinks a) as [|l rest]; cbn [insert_links].
  - destruct (fail_commit fl); [done|]. by destruct db.
  - destruct (fail_insert fl 0); [done|].
    unfold insert_broken_link. cbn [analyses]. by rewrite Hn.
Qed.

Lemma commit_cases fl id a db :
  commit_analysis fl id a db = db \/
  exists r, analyses db !! id = Some r /\
            commit_analysis fl id a db = committed id a r db.
Proof.
  destruct (analyses db !! id) as [r|] eqn:Hr.
  - rewrite (commit_analysis_eq fl id a db r Hr).
    destruct (commit_fails fl a); [by left|right; by exists r].
  - left. by apply commit_absent.
Qed.

Lemma select_links_other id id' db ls :
  id <> id' ->
  select_links id' (mkDB (analyses db)
                      (broken_links db ++ map (mkLinkRow id) ls)
                      (auto_increment db))
  = select_links id' db.
Proof.
  intros Hne. unfold select_links. cbn [broken_links].
  rewrite List.filter_app, map_app.
  assert (List.filter (fun r => Z.eqb (analysis_id r) id')
            (map (mkLinkRow id) ls) = []) as ->.
  { induction ls as [|l ls IH]; [done|]. cbn.
    destruct (Z.eqb_spec id id'); [done|]. apply IH. }
  by rewrite app_nil_r.
Qed.

Lemma getAnalysis_update_status_other st id id' db :
  id <> id' -> getAnalysis id' (update_status st id db) = getAnalysis id' db.
Proof.
  intros Hne. unfold getAnalysis, update_status. cbn [analyses].
  by rewrite lookup_alter_ne.
Qed.

Lemma getAnalysis_committed_other id id' a r db :
  id <> id' -> getAnalysis id' (committed id a r db) = getAnalysis id' db.
Proof.
  intros Hne. unfold getAnalysis, committed. cbn [analyses].
  rewrite lookup_insert_ne by done.
  destruct (analyses db !! id') as [r'|]; [|done]. cbn.
  unfold getAnalyses_row. f_equal. f_equal.
  by apply (select_links_other id id' db).
Qed.

Lemma getAnalysis_commit_other fl id id' a db :
  id <> id' ->
  getAnalysis id' (commit_analysis fl id a db) = getAnalysis id' db.
Proof.
  intros Hne. destruct (commit_cases fl id a db) as [->|(r & _ & ->)];
    [done|]. by apply getAnalysis_committed_other.
Qed.

Lemma wf_update_status st id db :
  well_formed db -> well_formed (update_status st id db).
Proof.
  intros [Hk Hl]. split; cbn [update_status analyses broken_links
                                 auto_increment].
  - intros i r Hr. destruct (decide (id = i)) as [->|Hne].
    + rewrite lookup_alter_eq in Hr.
      destruct (analyses db !! i) as [r'|] eqn:Hi; [|done]. by apply (Hk i r').
    + rewrite lookup_alter_ne in Hr by done. by apply (Hk i r).
  - intros lr Hin. destruct (Hl lr Hin) as [r Hr].
    destruct (decide (id = analysis_id lr)) as [->|Hne].
    + rewrite lookup_alter_eq, Hr. by eexists.
    + rewrite lookup_alter_ne by done. by eexists.
Qed.

Lemma wf_committed id a r db :
  analyses db !! id = Some r ->
  well_formed db -> well_formed (committed id a r db).
Proof.
  intros Hr [Hk Hl]. split; cbn [committed analyses broken_links
                                   auto_increment].
  - intros i r' Hi. destruct (decide (id = i)) as [->|Hne].
    + by apply (Hk i r).
    + rewrite lookup_insert_ne in Hi by done. by apply (Hk i r').
  - intros lr [Hin|Hin]%elem_of_app.
    + destruct (Hl lr Hin) as [r' Hr'].
      destruct (decide (id = analysis_id lr)) as [->|Hne].
      * rewrite lookup_insert_eq. by eexists.
      * rewrite lookup_insert_ne by done. by eexists.
    + apply list_elem_of_fmap in Hin as (l & -> & _). cbn.
      rewrite lookup_insert_eq. by eexists.
Qed.

Lemma wf_commit fl id a db :
  well_formed db -> well_formed (commit_analysis fl id a db).
Proof.
  intros Hwf. destruct (commit_cases fl id a db) as [->|(r & Hr & ->)];
    [done|]. by apply wf_committed.
Qed.

Lemma wf_insert_analysis u st db :
  well_formed db -> well_formed (snd (insert_analysis u st db)).
Proof.
  intros [Hk Hl]. split; cbn [insert_analysis snd analyses broken_links
                                auto_increment].
  - intros i r Hr. destruct (decide (auto_increment db = i)) as [<-|Hne].
    + lia.
    + rewrite lookup_insert_ne in Hr by done. pose proof (Hk i r Hr). lia.
  - intros lr Hin. destruct (Hl lr Hin) as [r Hr].
    destruct (decide (auto_increment db = analysis_id lr)) as [E|Hne].
    + rewrite <- E, lookup_insert_eq. by eexists.
    + rewrite lookup_insert_ne by done. by eexists.
Qed.

Lemma wf_delete id db : well_formed db -> well_formed (delete_analysis id db).
Proof.
  intros [Hk Hl]. split; cbn [delete_analysis analyses broken_links
                                auto_increment].
  - intros i r Hr. apply lookup_delete_Some in Hr as [_ Hr]. by apply (Hk i r).
  - intros lr Hin. apply list_elem_of_In, filter_In in Hin as [Hin Hne].
    apply list_elem_of_In in Hin. destruct (Hl lr Hin) as [r Hr].
    destruct (Z.eqb_spec (analysis_id lr) id) as [|Hne']; [done|].
    rewrite lookup_delete_ne by done. by eexists.
Qed.

End StoreMore.

(** ** Executions, requests and polls *)

Section JobsMore.
Context `{P : Platform}.
Import Store Jobs StoreInv.

Lemma wf_exec_step fl e db net :
  well_formed db -> well_formed (snd (fst (exec_step fl e db net))).
Proof.
  intros Hwf. unfold exec_step. destruct (ex_pc e); cbn [fst snd].
  - destruct (fail_running fl); [done|]. by apply wf_update_status.
  - by destruct (String.eqb _ _).
  - by destruct (analyzeURL (ex_url e) net) as [[?|?] ?].
  - destruct (fail_error fl); [done|]. by apply wf_update_status.
  - by apply wf_commit.
  - done.
Qed.

Lemma wf_handle r db : well_formed db -> well_formed (handle r db).
Proof.
  intros Hwf. destruct r; cbn [handle].
  - by apply wf_insert_analysis.
  - by apply wf_update_status.
  - by apply wf_update_status.
  - by apply wf_update_status.
  - by apply wf_delete.
Qed.

Lemma wf_sys_step s ev :
  well_formed (sys_db s) -> well_formed (sys_db (sys_step s ev)).
Proof.
  intros Hwf. destruct ev as [qf sf|k fl|r]; cbn [sys_step sys_db].
  - done.
  - destruct (sys_execs s !! k) as [e|]; [|done].
    pose proof (wf_exec_step fl e (sys_db s) (sys_net s) Hwf) as H.
    by destruct (exec_step fl e (sys_db s) (sys_net s)) as [[e' db'] net'].
  - by apply wf_handle.
Qed.

Lemma getAnalysis_exec_step_other fl e db net id' :
  ex_id e <> id' ->
  getAnalysis id' (snd (fst (exec_step fl e db net))) = getAnalysis id' db.
Proof.
  intros Hne. unfold exec_step. destruct (ex_pc e); cbn [fst snd].
  - destruct (fail_running fl); [done|].
    by apply getAnalysis_update_status_other.
  - by destruct (String.eqb _ _).
  - by destruct (analyzeURL (ex_url e) net) as [[?|?] ?].
  - destruct (fail_error fl); [done|].
    by apply getAnalysis_update_status_other.
  - by apply getAnalysis_commit_other.
  - done.
Qed.

Lemma filter_fst_NoDup {A} (p : Z * A -> bool) (l : list (Z * A)) :
  NoDup (map fst l) -> NoDup (map fst (List.filter p l)).
Proof.
  induction l as [|x l IH]; cbn; [done|].
  intros [Hx Hl]%NoDup_cons. destruct (p x); cbn; [|by apply IH].
  apply NoDup_cons. split; [|by apply IH].
  intros (y & Hy & Hin)%list_elem_of_fmap. apply Hx.
  apply list_elem_of_fmap. exists y. split; [done|].
  apply list_elem_of_In, filter_In in Hin as [Hin _].
  by apply list_elem_of_In.
Qed.

Lemma poll_ids query_fails scan_fails db :
  NoDup (map ex_id (startWorker_poll query_fails scan_fails db)).
Proof.
  unfold startWorker_poll, select_by_status.
  destruct query_fails; [apply NoDup_nil_2|].
  rewrite map_map. cbn [ex_id].
  apply (filter_fst_NoDup (fun j => negb (scan_fails (fst j)))).
  rewrite map_map. cbn [fst].
  apply (filter_fst_NoDup
           (fun kr => String.eqb (status (snd kr)) "queued")).
  apply NoDup_fst_map_to_list.
Qed.

Lemma poll_complete scan_fails db id r :
  analyses db !! id = Some r ->
  status r = "queued" ->
  scan_fails id = false ->
  mkExec id (url r) AtUpdateRunning ∈ startWorker_poll false scan_fails db.
Proof.
  intros Hr Hs Hf. unfold startWorker_poll, select_by_status.
  apply list_elem_of_fmap. exists (id, url r). split; [done|].
  apply list_elem_of_In, filter_In. split; [|cbn; by rewrite Hf].
  apply list_elem_of_In, list_elem_of_fmap. exists (id, r). split; [done|].
  apply list_elem_of_In, filter_In. split; [|cbn; by rewrite Hs].
  by apply list_elem_of_In, elem_of_map_to_list.
Qed.

End JobsMore.

(** Every key of [analyses] was handed out by the counter and every row of
    [broken_links] belongs to a row of [analyses]: whatever the worker,
    the executions and the requests do, in any order and with any
    statement failing, a store that is so stays so. *)
Theorem store_stays_well_formed `{P : Platform}
    (s : Jobs.System) (evs : list Jobs.Event) :
  StoreInv.well_formed (Jobs.sys_db s) ->
  StoreInv.well_formed (Jobs.sys_db (Jobs.run s evs)).
Proof.
  revert s. induction evs as [|ev evs IH]; intros s Hwf; [done|].
  rewrite run_cons. apply IH. by apply wf_sys_step.
Qed.

Lemma store_stays_well_formed_witness :
  let s0 := Jobs.mkSystem Sample.empty_db Sample.net0 [] in
  let evs := [Jobs.Incoming (Jobs.ReqAnalyze Sample.base_url); Jobs.poll_ok;
              Jobs.Advance 0 Jobs.no_faults; Jobs.Advance 0 Jobs.no_faults;
              Jobs.Advance 0 Jobs.no_faults; Jobs.Advance 0 Jobs.no_faults;
              Jobs.Incoming (Jobs.ReqDelete 1)] in
  StoreInv.well_formed (Jobs.sys_db s0) /\
  StoreInv.well_formed (Jobs.sys_db (Jobs.run s0 evs)).
Proof.
  intros s0 evs.
  assert (StoreInv.well_formed (Jobs.sys_db s0)) as H0.
  { split; cbn; [intros id r Hr; by rewrite lookup_empty in Hr
                |intros lr Hin; by apply elem_of_nil in Hin]. }
  split; [done|].
  by apply (store_stays_well_formed (P := Sample.sample_platform) s0 evs).
Defined.

(** A statement or call of the execution of one job leaves every other
    job as it is served: its row, its status and its links. *)
Theorem execution_touches_its_job_only `{P : Platform}
    (fl : Jobs.Faults) (e : Jobs.Exec) (db : Store.DB) (net : Net) (id' : Z) :
  Jobs.ex_id e <> id' ->
  Jobs.getAnalysis id' (snd (fst (Jobs.exec_step fl e db net)))
  = Jobs.getAnalysis id' db.
Proof. apply getAnalysis_exec_step_other. Qed.

Lemma execution_touches_its_job_only_witness :
  let db := snd (Jobs.analyzeHandler "https://other.test" Sample.done_db) in
  let e := Jobs.mkExec 2 "https://other.test"
             (Jobs.AtCommit Sample.sample_analysis) in
  Jobs.ex_id e <> 1 /\
  Jobs.getAnalysis 1 (snd (fst (Jobs.exec_step Jobs.no_faults e db Sample.net0)))
  = Jobs.getAnalysis 1 db /\
  Jobs.getAnalysis 2 (snd (fst (Jobs.exec_step Jobs.no_faults e db Sample.net0)))
  <> Jobs.getAnalysis 2 db.
Proof.
  intros db e. split; [done|]. split; [|by vm_compute].
  by apply (execution_touches_its_job_only (P := Sample.sample_platform)).
Defined.

(** One successful poll starts the execution of every queued job whose
    row scans, with the job's own URL and at its first statement, and
    starts no job twice. *)
Theorem poll_starts_each_queued_job_once `{P : Platform}
    (scan_fails : Z -> bool) (db : Store.DB) (id : Z) (r : Store.Row) :
  Store.analyses db !! id = Some r ->
  Store.status r = "queued" ->
  scan_fails id = false ->
  let started := Jobs.startWorker_poll false scan_fails db in
  NoDup (map Jobs.ex_id started) /\
  Jobs.mkExec id (Store.url r) Jobs.AtUpdateRunning ∈ started.
Proof.
  intros Hr Hs Hf started. split; [apply poll_ids|by apply poll_complete].
Qed.

Lemma poll_starts_each_queued_job_once_witness :
  let db := snd (Jobs.analyzeHandler "https://other.test" Sample.queued_db) in
  length (Jobs.startWorker_poll false (fun _ => false) db) = 2%nat /\
  NoDup (map Jobs.ex_id (Jobs.startWorker_poll false (fun _ => false) db)) /\
  Jobs.mkExec 2 "https://other.test" Jobs.AtUpdateRunning
  ∈ Jobs.startWorker_poll false (fun _ => false) db.
Proof.
  intros db. split; [by vm_compute|].
  apply (poll_starts_each_queued_job_once (P := Sample.sample_platform)
           (fun _ => false) db 2
           (Store.mkRow "https://other.test" None None 0 0 0 0 0 0 0 0 0 None
              "queued")); by vm_compute.
Defined.

Section ExecutionMore.
Context `{P : Platform}.
Import Store Jobs StoreInv.

Lemma step_returned fl id u db net :
  exec_step fl (mkExec id u Returned) db net = (mkExec id u Returned, db, net).
Proof. reflexivity. Qed.

Lemma update_status_twice st1 st2 id db :
  update_status st2 id (update_status st1 id db) = update_status st2 id db.
Proof.
  unfold update_status. cbn [analyses broken_links auto_increment]. f_equal.
  apply map_eq. intros j. destruct (decide (id = j)) as [->|Hne].
  - rewrite !lookup_alter_eq. by destruct (analyses db !! j).
  - by rewrite !lookup_alter_ne.
Qed.

Lemma getAnalysis_update_status st id db :
  getAnalysis id (update_status st id db)
  = with_ID_Status id st <$> getAnalysis id db.
Proof.
  unfold getAnalysis, update_status. cbn [analyses].
  rewrite lookup_alter_eq. by destruct (analyses db !! id).
Qed.

Lemma run_absent fl id u db net :
  analyses db !! id = None ->
  run (mkSystem db net [mkExec id u AtUpdateRunning])
    (replicate 4 (Advance 0 fl))
  = mkSystem db (if fail_running fl then net else snd (analyzeURL u net))
      [mkExec id u Returned].
Proof.
  intros Hn. cbn [replicate].
  rewrite run_cons, advance_alone. unfold exec_step at 1.
  cbn [ex_pc ex_id ex_url]. destruct (fail_running fl).
  { rewrite run_cons, advance_alone, step_returned.
    rewrite run_cons, advance_alone, step_returned.
    by rewrite run_cons, advance_alone, step_returned. }
  rewrite update_status_absent by done.
  rewrite run_cons, advance_alone. unfold exec_step at 1.
  cbn [ex_pc ex_id ex_url]. unfold select_status. rewrite Hn.
  assert ((if fail_select fl then EmptyString
           else default EmptyString (status <$> None)) = EmptyString) as ->
    by (by destruct (fail_select fl)).
  cbn [String.eqb].
  rewrite run_cons, advance_alone. unfold exec_step at 1.
  cbn [ex_pc ex_id ex_url].
  destruct (analyzeURL u net) as [[err|a] net'];
    rewrite run_cons, advance_alone; unfold exec_step;
    cbn [ex_pc ex_id ex_url run fold_left snd].
  - rewrite update_status_absent by done. by destruct (fail_error fl).
  - by rewrite commit_absent.
Qed.

Lemma processAnalysis_absent fl id u db net :
  analyses db !! id = None ->
  processAnalysis fl id u db net
  = (db, if fail_running fl then net else snd (analyzeURL u net)).
Proof.
  intros Hn. unfold processAnalysis. by rewrite run_absent.
Qed.

Lemma run_fails fl id u db net net' r err :
  analyses db !! id = Some r ->
  fail_running fl = false ->
  analyzeURL u net = (inl err, net') ->
  run (mkSystem db net [mkExec id u AtUpdateRunning])
    (replicate 4 (Advance 0 fl))
  = mkSystem
      (update_status (if fail_error fl then "running" else "error") id db)
      net' [mkExec id u Returned].
Proof.
  intros Hr Hrun Ha. cbn [replicate].
  rewrite run_cons, advance_alone, step_update_running by done.
  rewrite run_cons, advance_alone, step_check_running
    by (by apply (status_after_update "running" id db r)).
  rewrite run_cons, advance_alone. unfold exec_step at 1.
  cbn [ex_pc ex_id ex_url]. rewrite Ha.
  rewrite run_cons, advance_alone. unfold exec_step.
  cbn [ex_pc ex_id ex_url run fold_left].
  destruct (fail_error fl); [done|]. by rewrite update_status_twice.
Qed.

Lemma processAnalysis_fails fl id u db net net' r err :
  analyses db !! id = Some r ->
  fail_running fl = false ->
  analyzeURL u net = (inl err, net') ->
  processAnalysis fl id u db net
  = (update_status (if fail_error fl then "running" else "error") id db, net').
Proof.
  intros Hr Hrun Ha. unfold processAnalysis.
  by rewrite (run_fails fl id u db net net' r err).
Qed.

Lemma filter_all {A} (p : A -> bool) (l : list A) :
  (forall x, x ∈ l -> p x = true) -> List.filter p l = l.
Proof.
  induction l as [|x l IH]; intros H; cbn; [done|].
  rewrite (H x) by apply list_elem_of_here. f_equal.
  apply IH. intros y Hy. apply H. by apply list_elem_of_further.
Qed.

Lemma filter_none {A} (p : A -> bool) (l : list A) :
  (forall x, x ∈ l -> p x = false) -> List.filter p l = [].
Proof.
  induction l as [|x l IH]; intros H; cbn; [done|].
  rewrite (H x) by apply list_elem_of_here.
  apply IH. intros y Hy. apply H. by apply list_elem_of_further.
Qed.

Lemma no_links_of_absent id db :
  well_formed db -> analyses db !! id = None ->
  forall lr, lr ∈ broken_links db -> Z.eqb (analysis_id lr) id = false.
Proof.
  intros [_ Hl] Hn lr Hin. destruct (Hl lr Hin) as [r Hr].
  destruct (Z.eqb_spec (analysis_id lr) id) as [E|]; [|done].
  rewrite E in Hr. congruence.
Qed.

Lemma delete_absent id db :
  well_formed db -> analyses db !! id = None -> delete_analysis id db = db.
Proof.
  intros Hwf Hn. unfold delete_analysis. rewrite delete_id by done.
  rewrite filter_all; [by destruct db|].
  intros lr Hin. by rewrite (no_links_of_absent id db Hwf Hn lr Hin).
Qed.

Lemma select_links_delete id id' db :
  select_links id' (delete_analysis id db)
  = if bool_decide (id' = id) then [] else select_links id' db.
Proof.
  unfold select_links, delete_analysis. cbn [broken_links].
  case_bool_decide as E.
  - subst id'. induction (broken_links db) as [|lr l IH]; [done|]. cbn.
    destruct (Z.eqb_spec (analysis_id lr) id); cbn; [done|].
    destruct (Z.eqb_spec (analysis_id lr) id); [done|]. apply IH.
  - induction (broken_links db) as [|lr l IH]; [done|]. cbn.
    destruct (Z.eqb_spec (analysis_id lr) id) as [E1|E1]; cbn.
    + destruct (Z.eqb_spec (analysis_id lr) id'); [congruence|]. apply IH.
    + destruct (Z.eqb_spec (analysis_id lr) id'); cbn; by rewrite IH.
Qed.

End ExecutionMore.

Section RequestsMore.
Context `{P : Platform}.
Import Store Jobs StoreInv.

Lemma getAnalysis_update_status_any st id id' db :
  getAnalysis id' (update_status st id db)
  = if bool_decide (id' = id)
    then with_ID_Status id st <$> getAnalysis id db
    else getAnalysis id' db.
Proof.
  case_bool_decide as E.
  - subst id'. apply getAnalysis_update_status.
  - by apply getAnalysis_update_status_other.
Qed.

Lemma getAnalysis_delete id id' db :
  getAnalysis id' (delete_analysis id db)
  = if bool_decide (id' = id) then None else getAnalysis id' db.
Proof.
  unfold getAnalysis. cbn [delete_analysis analyses].
  case_bool_decide as E.
  - subst id'. by rewrite lookup_delete_eq.
  - rewrite lookup_delete_ne by done.
    destruct (analyses db !! id') as [r|]; [|done]. cbn.
    unfold getAnalyses_row. f_equal. f_equal.
    pose proof (select_links_delete id id' db) as H.
    by rewrite bool_decide_eq_false_2 in H.
Qed.

Lemma fresh_key db : well_formed db -> analyses db !! auto_increment db = None.
Proof.
  intros [Hk _]. destruct (analyses db !! auto_increment db) as [r|] eqn:Hr;
    [|done]. pose proof (Hk _ _ Hr). lia.
Qed.

Lemma no_faults_commit a : commit_fails no_faults a = false.
Proof.
  unfold commit_fails, no_faults. cbn.
  by induction (seq 0 (length (BrokenLinks a))).
Qed.

Lemma analyzeURL_URL urlStr net a net' :
  analyzeURL urlStr net = (inr a, net') -> URL a = urlStr.
Proof.
  intros (resp & doc & net1 & _ & _ & -> & _)%analyzeURL_inr.
  cbn. by rewrite WalkFields.f_URL.
Qed.

End RequestsMore.

(** In the store as the first statement of an execution leaves it, a
    poll does not start the job; until that statement every poll does,
    which is how one job comes to be run twice. *)
Theorem running_job_is_not_polled `{P : Platform}
    (fl : Jobs.Faults) (id : Z) (u : string) (db : Store.DB) (net : Net)
    (r : Store.Row) (query_fails : bool) (scan_fails : Z -> bool)
    (e : Jobs.Exec) :
  Store.analyses db !! id = Some r ->
  Jobs.fail_running fl = false ->
  e ∈ Jobs.startWorker_poll query_fails scan_fails
        (snd (fst (Jobs.exec_step fl (Jobs.mkExec id u Jobs.AtUpdateRunning)
                     db net))) ->
  Jobs.ex_id e <> id.
Proof.
  intros Hr Hf [Hq _]%poll_starts_only_queued He.
  rewrite step_update_running in Hq by done. cbn [fst snd] in Hq.
  rewrite He, (status_after_update "running" id db r Hr) in Hq. done.
Qed.

Lemma running_job_is_not_polled_witness :
  let db := snd (Jobs.analyzeHandler "https://other.test" Sample.queued_db) in
  let e := Jobs.mkExec 2 "https://other.test" Jobs.AtUpdateRunning in
  let db1 := snd (fst (Jobs.exec_step Jobs.no_faults
                         (Jobs.mkExec 1 Sample.base_url Jobs.AtUpdateRunning)
                         db Sample.net0)) in
  length (Jobs.startWorker_poll false (fun _ => false) db) = 2%nat /\
  Jobs.startWorker_poll false (fun _ => false) db1 = [e] /\
  Jobs.ex_id e <> 1.
Proof.
  intros db e db1. split; [by vm_compute|]. split; [by vm_compute|].
  apply (running_job_is_not_polled (P := Sample.sample_platform)
           Jobs.no_faults 1 Sample.base_url db Sample.net0
           (Store.mkRow Sample.base_url None None 0 0 0 0 0 0 0 0 0 None
              "queued") false (fun _ => false) e); [by vm_compute|done|].
  apply list_elem_of_In. vm_compute. by left.
Defined.

(** An execution whose job has been deleted changes nothing in the store,
    whichever statements fail; unless its first statement fails it still
    fetches and checks the page. *)
Theorem execution_of_deleted_job_changes_nothing `{P : Platform}
    (fl : Jobs.Faults) (id : Z) (u : string) (db : Store.DB) (net : Net) :
  Store.analyses db !! id = None ->
  Jobs.processAnalysis fl id u db net
  = (db, if Jobs.fail_running fl then net else snd (analyzeURL u net)).
Proof. apply processAnalysis_absent. Qed.

Lemma execution_of_deleted_job_changes_nothing_witness :
  let db := Jobs.deleteAnalysisHandler 1 Sample.queued_db in
  Store.analyses db !! 1 = None /\
  Jobs.processAnalysis Jobs.no_faults 1 Sample.base_url db Sample.net0
  = (db, snd Sample.sample_run) /\
  length (requests (snd Sample.sample_run)) = 5%nat.
Proof.
  intros db. split; [by vm_compute|]. split; [|by vm_compute].
  rewrite (execution_of_deleted_job_changes_nothing
             (P := Sample.sample_platform)) by (by vm_compute).
  by vm_compute.
Defined.

(** When the analysis fails, an undisturbed execution ends with the job
    in [error], or still in [running] when that last update fails too;
    the result columns and the links the job had are as before. *)
Theorem failed_analysis_marks_error `{P : Platform}
    (fl : Jobs.Faults) (id : Z) (u : string) (db : Store.DB) (net net' : Net)
    (r : Store.Row) (err : AnalyzeError) :
  Store.analyses db !! id = Some r ->
  Jobs.fail_running fl = false ->
  analyzeURL u net = (inl err, net') ->
  let st := if Jobs.fail_error fl then "running" else "error" in
  let out := Jobs.processAnalysis fl id u db net in
  snd out = net' /\
  Jobs.getAnalysis id (fst out)
  = with_ID_Status id st <$> Jobs.getAnalysis id db /\
  Store.select_links id (fst out) = Store.select_links id db.
Proof.
  intros Hr Hf Ha st out. subst out.
  rewrite (processAnalysis_fails fl id u db net net' r err) by done.
  split; [done|]. split; [apply getAnalysis_update_status|done].
Qed.

Lemma failed_analysis_marks_error_witness :
  let db := Jobs.rerunHandler 1 Sample.done_db in
  let out := Jobs.processAnalysis Jobs.no_faults 1 "http://dead.test/" db
               Sample.net0 in
  Store.select_status 1 (fst out) = Some "error" /\
  Title <$> Jobs.getAnalysis 1 (fst out) = Some "Example" /\
  Store.select_links 1 (fst out) = ["https://example.com/old"] /\
  Store.select_links 1 (fst out) = Store.select_links 1 db.
Proof.
  intros db out. split; [by vm_compute|]. split; [by vm_compute|].
  split; [by vm_compute|].
  destruct (failed_analysis_marks_error (P := Sample.sample_platform)
              Jobs.no_faults 1 "http://dead.test/" db Sample.net0
              (mkNet (P := Sample.sample_platform) ["http://dead.test/"] 1%nat)
              (Store.mkRow Sample.base_url (Some "HTML5") (Some "Example")
                 1 0 0 0 0 0 1 0 1 (Some false) "queued") GetError)
    as (_ & _ & H); [by vm_compute|done|by vm_compute|].
  exact H.
Defined.

(** After a delete the job is not served any more and none of its link
    rows is left; every other job is served as before. *)
Theorem delete_removes_job_and_links (id id' : Z) (db : Store.DB) :
  Jobs.getAnalysis id' (Jobs.deleteAnalysisHandler id db)
  = (if bool_decide (id' = id) then None else Jobs.getAnalysis id' db) /\
  Store.select_links id' (Jobs.deleteAnalysisHandler id db)
  = (if bool_decide (id' = id) then [] else Store.select_links id' db).
Proof.
  split; [apply getAnalysis_delete|apply select_links_delete].
Qed.

(** A stop, re-run or start request changes the status of its job and
    nothing else: the result columns and the links of that job stay, and
    every other job is served as before.  Re-run and start do the same
    thing, and they queue the job whatever state it is in. *)
Theorem status_requests_change_status_only (id id' : Z) (db : Store.DB) :
  let view st :=
    if bool_decide (id' = id)
    then with_ID_Status id st <$> Jobs.getAnalysis id db
    else Jobs.getAnalysis id' db in
  Jobs.getAnalysis id' (Jobs.stopAnalysisHandler id db) = view "stopped" /\
  Jobs.getAnalysis id' (Jobs.rerunHandler id db) = view "queued" /\
  Jobs.getAnalysis id' (Jobs.startAnalysisHandler id db) = view "queued".
Proof.
  intros view. subst view. cbn beta.
  unfold Jobs.stopAnalysisHandler, Jobs.rerunHandler,
    Jobs.startAnalysisHandler.
  by rewrite !getAnalysis_update_status_any.
Qed.

(** A submitted URL gets the next key, which no job holds, and is served
    at once as a queued job with that URL, no result and no links; the
    jobs already there are served as before. *)
Theorem submitted_job_is_queued (u : string) (db : Store.DB) (id' : Z) :
  StoreInv.well_formed db ->
  let id := fst (Jobs.analyzeHandler u db) in
  let db' := snd (Jobs.analyzeHandler u db) in
  Store.analyses db !! id = None /\
  Jobs.getAnalysis id' db'
  = if bool_decide (id' = id)
    then Some (with_ID_Status id "queued" (new_Analysis u))
    else Jobs.getAnalysis id' db.
Proof.
  intros Hwf id db'. subst id db'.
  unfold Jobs.analyzeHandler, Store.insert_analysis. cbn [fst snd].
  pose proof (fresh_key db Hwf) as Hfresh. split; [done|].
  unfold Jobs.getAnalysis. cbn [Store.analyses].
  case_bool_decide as E.
  - subst id'. rewrite lookup_insert_eq. cbn.
    unfold Jobs.getAnalyses_row, with_ID_Status, new_Analysis. cbn.
    f_equal. f_equal. unfold Store.select_links. cbn [Store.broken_links].
    rewrite filter_none; [done|].
    intros lr Hin. by apply (no_links_of_absent _ db Hwf Hfresh).
  - rewrite lookup_insert_ne by done.
    by destruct (Store.analyses db !! id').
Qed.

Lemma submitted_job_is_queued_witness :
  StoreInv.well_formed Sample.empty_db /\
  fst (Jobs.analyzeHandler Sample.base_url Sample.empty_db) = 1 /\
  Jobs.getAnalysis 1 (snd (Jobs.analyzeHandler Sample.base_url Sample.empty_db))
  = Some (with_ID_Status 1 "queued" (new_Analysis Sample.base_url)).
Proof.
  assert (StoreInv.well_formed Sample.empty_db) as H0.
  { split; cbn; [intros id r Hr; by rewrite lookup_empty in Hr
                |intros lr Hin; by apply elem_of_nil in Hin]. }
  split; [done|]. split; [done|].
  destruct (submitted_job_is_queued Sample.base_url Sample.empty_db 1 H0)
    as [_ H].
  exact H.
Defined.

(** A stop, re-run, start or delete request for a key that no job holds
    leaves the store exactly as it is. *)
Theorem request_for_unknown_job_changes_nothing (id : Z) (db : Store.DB) :
  StoreInv.well_formed db ->
  Store.analyses db !! id = None ->
  Jobs.stopAnalysisHandler id db = db /\
  Jobs.rerunHandler id db = db /\
  Jobs.startAnalysisHandler id db = db /\
  Jobs.deleteAnalysisHandler id db = db.
Proof.
  intros Hwf Hn.
  unfold Jobs.stopAnalysisHandler, Jobs.rerunHandler,
    Jobs.startAnalysisHandler, Jobs.deleteAnalysisHandler.
  rewrite !update_status_absent by done.
  by rewrite delete_absent.
Qed.

Lemma request_for_unknown_job_changes_nothing_witness :
  StoreInv.well_formed Sample.queued_db /\
  Store.analyses Sample.queued_db !! 9 = None /\
  Jobs.stopAnalysisHandler 9 Sample.queued_db = Sample.queued_db /\
  Jobs.rerunHandler 9 Sample.queued_db = Sample.queued_db /\
  Jobs.startAnalysisHandler 9 Sample.queued_db = Sample.queued_db /\
  Jobs.deleteAnalysisHandler 9 Sample.queued_db = Sample.queued_db.
Proof.
  assert (StoreInv.well_formed Sample.queued_db) as H0.
  { apply wf_insert_analysis.
    split; cbn; [intros id r Hr; by rewrite lookup_empty in Hr
                |intros lr Hin; by apply elem_of_nil in Hin]. }
  split; [done|]. split; [by vm_compute|].
  apply (request_for_unknown_job_changes_nothing 9 Sample.queued_db H0).
  by vm_compute.
Defined.

(** A job with no links yet, run once with nothing failing and nothing in
    between: what is then served for it is the result of [analyzeURL]
    field for field, with the job's key and the status [done]. *)
Theorem first_run_is_served_as_analyzed `{P : Platform}
    (id : Z) (db : Store.DB) (net net' : Net) (r : Store.Row) (a : Analysis) :
  Store.analyses db !! id = Some r ->
  Store.select_links id db = [] ->
  analyzeURL (Store.url r) net = (inr a, net') ->
  Jobs.getAnalysis id
    (fst (Jobs.processAnalysis Jobs.no_faults id (Store.url r) db net))
  = Some (with_ID_Status id "done" a).
Proof.
  intros Hr Hl Ha.
  rewrite (processAnalysis_commits Jobs.no_faults id (Store.url r) db net net'
             r a) by done.
  cbn [fst].
  rewrite (commit_analysis_eq Jobs.no_faults id a _
             (Store.set_status "running" r)), no_faults_commit.
  - unfold Jobs.getAnalysis. rewrite committed_row. cbn [fmap option_fmap
                                                       option_map].
    unfold Jobs.getAnalyses_row, with_ID_Status. rewrite committed_links.
    change (Store.select_links id (Store.update_status "running" id db))
      with (Store.select_links id db).
    rewrite Hl, (analyzeURL_URL _ _ _ _ Ha). reflexivity.
  - unfold Store.update_status. cbn. by rewrite lookup_alter_eq, Hr.
Qed.

Lemma first_run_is_served_as_analyzed_witness :
  let r := Store.mkRow Sample.base_url None None 0 0 0 0 0 0 0 0 0 None
             "queued" in
  Store.analyses Sample.queued_db !! 1 = Some r /\
  Store.select_links 1 Sample.queued_db = [] /\
  Jobs.getAnalysis 1
    (fst (Jobs.processAnalysis Jobs.no_faults 1 Sample.base_url
            Sample.queued_db Sample.net0))
  = Some (with_ID_Status 1 "done" Sample.sample_analysis).
Proof.
  intros r. split; [by vm_compute|]. split; [by vm_compute|].
  apply (first_run_is_served_as_analyzed (P := Sample.sample_platform)
           1 Sample.queued_db Sample.net0 (snd Sample.sample_run) r
           Sample.sample_analysis); by vm_compute.
Defined.

(** A stop that arrives while the analysis is under way does not last:
    the execution's last statement writes [done], or [error] when the
    analysis failed, over it. *)
Theorem final_write_overrides_stop `{P : Platform}
    (fl : Jobs.Faults) (id : Z) (u : string) (db : Store.DB) (net : Net)
    (r : Store.Row) (a : Analysis) :
  Store.analyses db !! id = Some r ->
  Jobs.commit_fails fl a = false ->
  Jobs.fail_error fl = false ->
  let stopped := Jobs.stopAnalysisHandler id db in
  Store.select_status id stopped = Some "stopped" /\
  Store.select_status id
    (snd (fst (Jobs.exec_step fl (Jobs.mkExec id u (Jobs.AtCommit a))
                 stopped net))) = Some "done" /\
  Store.select_status id
    (snd (fst (Jobs.exec_step fl (Jobs.mkExec id u Jobs.AtSetError)
                 stopped net))) = Some "error".
Proof.
  intros Hr Hc He stopped. subst stopped. unfold Jobs.stopAnalysisHandler.
  assert (Store.analyses (Store.update_status "stopped" id db) !! id
          = Some (Store.set_status "stopped" r)) as Hr1.
  { unfold Store.update_status. cbn. by rewrite lookup_alter_eq, Hr. }
  split; [by apply (status_after_update "stopped" id db r)|].
  unfold Jobs.exec_step. cbn [Jobs.ex_pc Jobs.ex_id Jobs.ex_url fst snd].
  split.
  - rewrite (commit_analysis_eq fl id a _ _ Hr1), Hc.
    unfold Store.select_status. by rewrite committed_row.
  - rewrite He.
    by apply (status_after_update "error" id _ (Store.set_status "stopped" r)).
Qed.

Lemma final_write_overrides_stop_witness :
  let db := Store.update_status "running" 1 Sample.queued_db in
  let e := Jobs.mkExec 1 Sample.base_url
             (Jobs.AtCommit Sample.sample_analysis) in
  Store.select_status 1 (Jobs.stopAnalysisHandler 1 db) = Some "stopped" /\
  Store.select_status 1
    (snd (fst (Jobs.exec_step Jobs.no_faults e (Jobs.stopAnalysisHandler 1 db)
                 Sample.net0))) = Some "done".
Proof.
  intros db e.
  destruct (final_write_overrides_stop (P := Sample.sample_platform)
              Jobs.no_faults 1 Sample.base_url db Sample.net0
              (Store.mkRow Sample.base_url None None 0 0 0 0 0 0 0 0 0 None
                 "running") Sample.sample_analysis)
    as (H1 & H2 & _); [by vm_compute|by vm_compute|done|].
  by split.
Defined.

(** ** A job that is not queued, over any run of the process *)

Section NotQueued.
Context `{P : Platform}.
Import Store Jobs StoreInv.











End NotQueued.


